(** * NewsScreen: the paginated headline feed and its bookmark list

    A model of [src/app/(tabs)/index.tsx].  The earlier variant of the
    screen ([src/unnamed/part_000]) has the same [fetchNews] and
    [handleScroll], word for word, and none of the bookmark code, so the
    results on the feed hold for both.

    The component is a React function component: six [useState] cells, three
    [async] functions and two synchronous handlers.  The async functions are
    modelled as finite trees of effects ([Async]): a state update, an
    output, or an [Await] on a platform promise with the code that runs
    once the promise settles.  A [World] holds the component state, the
    key-value storage, the suspended continuations and the outputs so far;
    [step] runs one handler, or settles one suspended promise, and then
    re-runs the [useEffect] when [page] has changed.  What the component
    returns is a tree of host elements ([ReactNode]), whose links carry
    the handlers.

    Conventions.
    - A handler closes over the state of the render it belongs to.  In a
      session every action is followed by a render, and by the effect of
      that render, before the next action is handled, so that the handler
      that runs is the one of the latest render: [step] passes it the
      current [screen].  Two events delivered to the handlers of one and
      the same render are not a session.
    - A state update is applied when it is made, and the render follows
      once the handler, or the continuation of an [await], has run up to
      its next suspension: no render takes place inside an async
      function.
    - Page numbers are integers ([Z]): they start at 1 and only ever grow
      by 1.  The three measurements of a scroll event are whatever the
      native side reports, so they are IEEE 754 doubles ([float]), and
      [+], [-] and [>=] on them are the operations of the doubles.
    - The JSON codec and the API key belong to the platform, not to the
      repository: they are the fields of the class [Platform]. *)

From Stdlib Require Import ZArith Lia Ascii Floats.
From stdpp Require Import base strings list gmap.

(** ** Data *)

(** [type NewsArticle] (index.tsx, lines 7-12). *)
Record NewsArticle : Type := mkArticle {
  title : string;
  description : string;
  urlToImage : string;
  url : string
}.

(** What [response.json()] can resolve with, as far as [fetchNews] looks:
    [JNull] is [null], on which [data.articles] throws; [JObject None] is a
    value whose [articles] is absent; [JObject (Some l)] has the array. *)
Inductive JsonData : Type :=
| JNull
| JObject (articles : option (list NewsArticle)).

(** An HTTP response; [body] is [None] when the body is not JSON, in which
    case [response.json()] rejects. *)
Record Response : Type := mkResponse { body : option JsonData }.

(** What [JSON.parse] gives for the stored text, as far as the code looks:
    an array of articles, or something that is not an array (no [push], no
    [map]). *)
Inductive JsValue : Type :=
| JsArray (items : list NewsArticle)
| JsOther.

(** The six [useState] cells of [NewsScreen] (lines 39-44). *)
Record Screen : Type := mkScreen {
  news : list NewsArticle;
  loading : bool;
  page : Z;
  hasMore : bool;
  savedArticles : JsValue;
  viewingSaved : bool
}.

Definition initial : Screen :=
  {| news := []; loading := false; page := 1; hasMore := true;
     savedArticles := JsArray []; viewingSaved := false |}.

Definition with_news (f : list NewsArticle → list NewsArticle) (s : Screen) : Screen :=
  {| news := f (news s); loading := loading s; page := page s; hasMore := hasMore s;
     savedArticles := savedArticles s; viewingSaved := viewingSaved s |}.

Definition with_loading (b : bool) (s : Screen) : Screen :=
  {| news := news s; loading := b; page := page s; hasMore := hasMore s;
     savedArticles := savedArticles s; viewingSaved := viewingSaved s |}.

Definition with_page (f : Z → Z) (s : Screen) : Screen :=
  {| news := news s; loading := loading s; page := f (page s); hasMore := hasMore s;
     savedArticles := savedArticles s; viewingSaved := viewingSaved s |}.

Definition with_hasMore (b : bool) (s : Screen) : Screen :=
  {| news := news s; loading := loading s; page := page s; hasMore := b;
     savedArticles := savedArticles s; viewingSaved := viewingSaved s |}.

Definition with_savedArticles (v : JsValue) (s : Screen) : Screen :=
  {| news := news s; loading := loading s; page := page s; hasMore := hasMore s;
     savedArticles := v; viewingSaved := viewingSaved s |}.

Definition with_viewingSaved (b : bool) (s : Screen) : Screen :=
  {| news := news s; loading := loading s; page := page s; hasMore := hasMore s;
     savedArticles := savedArticles s; viewingSaved := b |}.

(** The [nativeEvent] of a scroll event (lines 94-95): three numbers. *)
Record ScrollEvent : Type := mkScroll {
  layoutMeasurement_height : float;
  contentOffset_y : float;
  contentSize_height : float
}.

(** [x >= y] on numbers: false when [x < y], and also when the two are not
    comparable, which is when one of them is NaN. *)
Definition geb (x y : float) : bool :=
  match (x ?= y)%float with
  | FEq | FGt => true
  | FLt | FNotComparable => false
  end.

(** The number an integer is: the nearest double, the even one of two
    that are as near. *)
Definition double (z : Z) : float := SF2Prim (binary_normalize prec emax z 0 false).

(** The double of a positive integer below 2^53, as sign, mantissa of 53
    bits and exponent, and the double of any integer below 2^53 in
    absolute value. *)
Definition canon (s : bool) (z : Z) : spec_float :=
  S754_finite s (Z.to_pos (z * 2 ^ (52 - Z.log2 z))) (Z.log2 z - 52).

Definition Z2SF (z : Z) : spec_float :=
  match z with
  | Z0 => S754_zero false
  | Zpos _ => canon false z
  | Zneg _ => canon true (- z)
  end.

Definition signed (s : bool) (z : Z) : Z := if s then (- z)%Z else z.

(** ** The platform *)

(** [API_KEY] comes from [../../config]; [JSON.parse] returns [None] when it
    throws a [SyntaxError]. *)
Class Platform : Type := {
  API_KEY : string;
  JSON_parse : string → option JsValue;
  JSON_stringify : list NewsArticle → string
}.

(** What the code relies on: [JSON.parse] reads back what [JSON.stringify]
    wrote, and the text of an array is not the empty string. *)
Class Lawful `{Platform} : Prop := {
  parse_stringify : ∀ l, JSON_parse (JSON_stringify l) = Some (JsArray l);
  stringify_truthy : ∀ l, JSON_stringify l ≠ ""
}.

(** The query of the request built on line 51. *)
Record Url : Type := mkUrl {
  apiKey : string;
  country : string;
  query_page : Z;
  pageSize : Z
}.

(** The promises the code awaits, indexed by what they resolve with. *)
Inductive Call : Type → Type :=
| fetch (u : Url) : Call Response
| json (r : Response) : Call JsonData
| getItem (key : string) : Call (option string)
| setItem (key value : string) : Call unit.

Inductive Outcome (X : Type) : Type :=
| Resolved (x : X)
| Rejected.
Arguments Resolved {X} x.
Arguments Rejected {X}.

Inductive JsError : Type := PromiseRejected | TypeError | SyntaxError.

(** What the screen does to the outside: the calls it issues, and
    [console.error], [alert] and [Linking.openURL]. *)
Inductive Output : Type :=
| HttpGet (u : Url)
| BodyRead
| StorageGet (key : string)
| StorageSet (key value : string)
| ConsoleError (msg : string)
| Alert (msg : string)
| OpenURL (u : string).

Definition issued {X} (c : Call X) : Output :=
  match c with
  | fetch u => HttpGet u
  | json _ => BodyRead
  | getItem key => StorageGet key
  | setItem key value => StorageSet key value
  end.

(** ** Asynchronous code *)

(** A computation of the component: it returns, throws, updates the state
    (a [setX] call, with its updater), produces an output, awaits a
    promise, or calls an async function without awaiting it ([Spawn]). *)
Inductive Async (A : Type) : Type :=
| Return (a : A)
| Throw (e : JsError)
| SetState (f : Screen → Screen) (k : Async A)
| Emit (o : Output) (k : Async A)
| Await {X : Type} (c : Call X) (k : Outcome X → Async A)
| Spawn (child : Async unit) (k : Async A).
Arguments Return {A} a.
Arguments Throw {A} e.
Arguments SetState {A} f k.
Arguments Emit {A} o k.
Arguments Await {A X} c k.
Arguments Spawn {A} child k.

Fixpoint bind {A B} (m : Async A) (f : A → Async B) : Async B :=
  match m with
  | Return a => f a
  | Throw e => Throw e
  | SetState g k => SetState g (bind k f)
  | Emit o k => Emit o (bind k f)
  | Await c k => Await c (λ o, bind (k o) f)
  | Spawn child k => Spawn child (bind k f)
  end.

#[global] Instance Async_ret : MRet Async := λ A a, Return a.
#[global] Instance Async_bind : MBind Async := λ A B f m, bind m f.

(** [try { m } catch (error) { h error }] *)
Fixpoint try_catch {A} (m : Async A) (h : JsError → Async A) : Async A :=
  match m with
  | Return a => Return a
  | Throw e => h e
  | SetState g k => SetState g (try_catch k h)
  | Emit o k => Emit o (try_catch k h)
  | Await c k => Await c (λ o, try_catch (k o) h)
  | Spawn child k => Spawn child (try_catch k h)
  end.

(** [try { m } finally { fin }]: [fin] runs on return and on throw. *)
Fixpoint try_finally {A} (m : Async A) (fin : Async unit) : Async A :=
  match m with
  | Return a => bind fin (λ _, Return a)
  | Throw e => bind fin (λ _, Throw e)
  | SetState g k => SetState g (try_finally k fin)
  | Emit o k => Emit o (try_finally k fin)
  | Await c k => Await c (λ o, try_finally (k o) fin)
  | Spawn child k => Spawn child (try_finally k fin)
  end.

(** [await c]: a rejected promise throws. *)
Definition await {X} (c : Call X) : Async X :=
  Await c (λ o, match o with Resolved x => Return x | Rejected => Throw PromiseRejected end).

Definition setNews (f : list NewsArticle → list NewsArticle) : Async unit :=
  SetState (with_news f) (Return tt).
Definition setLoading (b : bool) : Async unit := SetState (with_loading b) (Return tt).
Definition setPage (f : Z → Z) : Async unit := SetState (with_page f) (Return tt).
Definition setHasMore (b : bool) : Async unit := SetState (with_hasMore b) (Return tt).
Definition setSavedArticles (v : JsValue) : Async unit :=
  SetState (with_savedArticles v) (Return tt).
Definition setViewingSaved (b : bool) : Async unit :=
  SetState (with_viewingSaved b) (Return tt).

Definition console_error (msg : string) : Async unit := Emit (ConsoleError msg) (Return tt).
Definition alert (msg : string) : Async unit := Emit (Alert msg) (Return tt).

(** [data.articles]: a [TypeError] on [null]. *)
Definition get_articles (data : JsonData) : Async (option (list NewsArticle)) :=
  match data with
  | JNull => Throw TypeError
  | JObject a => Return a
  end.

(** [articlesArray.push(article)]: a [TypeError] on what is not an array. *)
Definition push (v : JsValue) (article : NewsArticle) : Async (list NewsArticle) :=
  match v with
  | JsArray l => Return (l ++ [article])
  | JsOther => Throw TypeError
  end.

(** ** The component *)

Section NewsScreen.
Context `{Platform}.

(** [saved ? JSON.parse(saved) : []] (lines 70 and 82) as a value:
    [null] and the empty string are falsy; [None] when [JSON.parse]
    throws. *)
Definition read_saved (saved : option string) : option JsValue :=
  match saved with
  | Some text => if bool_decide (text = "") then Some (JsArray []) else JSON_parse text
  | None => Some (JsArray [])
  end.

Definition parse_saved (saved : option string) : Async JsValue :=
  match read_saved saved with
  | Some v => Return v
  | None => Throw SyntaxError
  end.

(** The URL of line 51. *)
Definition top_headlines (pageNumber : Z) : Url :=
  {| apiKey := API_KEY; country := "us"; query_page := pageNumber; pageSize := 10 |}.

(** [fetchNews] (lines 46-65; part_000, lines 43-62). *)
Definition fetchNews (s : Screen) (pageNumber : Z) : Async unit :=
  if loading s || negb (hasMore s) then Return tt else
  setLoading true;;
  try_finally
    (try_catch
       (response ← await (fetch (top_headlines pageNumber));
        data ← await (json response);
        articles ← get_articles data;
        match articles with
        | Some arr =>
            if (0 <? length arr)%nat
            then setNews (λ prevNews, prevNews ++ arr)
            else setHasMore false
        | None => setHasMore false
        end)
       (λ error, console_error "Error fetching news"))
    (setLoading false).

(** [saveArticle] (lines 67-77). *)
Definition saveArticle (article : NewsArticle) : Async unit :=
  try_catch
    (saved ← await (getItem "savedArticles");
     articlesArray ← parse_saved saved;
     pushed ← push articlesArray article;
     await (setItem "savedArticles" (JSON_stringify pushed));;
     alert "Saved!")
    (λ error, console_error "Error saving article").

(** [getSavedArticles] (lines 79-87). *)
Definition getSavedArticles : Async unit :=
  try_catch
    (saved ← await (getItem "savedArticles");
     articles ← parse_saved saved;
     setSavedArticles articles)
    (λ error, console_error "Error fetching saved articles").

(** [isCloseToBottom] (line 95). *)
Definition isCloseToBottom (ev : ScrollEvent) : bool :=
  geb (layoutMeasurement_height ev + contentOffset_y ev) (contentSize_height ev - 20).

(** [handleScroll] (lines 93-100; part_000, lines 68-75). *)
Definition handleScroll (s : Screen) (ev : ScrollEvent) : Async unit :=
  if isCloseToBottom ev && hasMore s && negb (loading s)
  then setPage (λ prevPage, prevPage + 1)%Z
  else Return tt.

(** [toggleView] (lines 103-110): [getSavedArticles()] is not awaited. *)
Definition toggleView (s : Screen) : Async unit :=
  if viewingSaved s
  then setViewingSaved false
  else Spawn getSavedArticles (setViewingSaved true).

(** [() => Linking.openURL(article.url)] (lines 136 and 150). *)
Definition openLink (item : NewsArticle) : Async unit :=
  Emit (OpenURL (url item)) (Return tt).

(** The list the JSX maps over (lines 130-158); [None] when
    [savedArticles.map] is not a function. *)
Definition rendered (s : Screen) : option (list NewsArticle) :=
  if viewingSaved s
  then match savedArticles s with JsArray l => Some l | JsOther => None end
  else Some (news s).
End NewsScreen.

(** ** Running the component *)

(** A suspended async function: the promise it awaits and the code that
    runs when the promise settles. *)
Inductive Task : Type :=
| Suspended {X : Type} (c : Call X) (k : Outcome X → Async unit).

Record World : Type := mkWorld {
  screen : Screen;
  storage : gmap string string;
  pending : list Task;
  log : list Output
}.

(** Runs a computation up to its suspension: an [Await] issues the call and
    leaves the rest pending.  Nothing in the component catches a throw
    that reaches the top, and none does (every body is inside a [try]). *)
Fixpoint run (m : Async unit) (w : World) : World :=
  match m with
  | Return _ | Throw _ => w
  | SetState f k => run k (mkWorld (f (screen w)) (storage w) (pending w) (log w))
  | Emit o k => run k (mkWorld (screen w) (storage w) (pending w) (log w ++ [o]))
  | Await c k =>
      mkWorld (screen w) (storage w) (pending w ++ [Suspended c k]) (log w ++ [issued c])
  | Spawn child k => run k (run child w)
  end.

(** How the platform settles a promise.  [Reject] fails it; [Respond r]
    resolves a [fetch] with [r]; [Resolve] resolves the other calls with
    what the response body or the storage gives.  An answer that does not
    fit the call counts as a failure. *)
Inductive Answer : Type :=
| Reject
| Resolve
| Respond (r : Response).

Definition perform {X} (c : Call X) (a : Answer) (st : gmap string string)
  : Outcome X * gmap string string :=
  match c in Call X return Outcome X * gmap string string with
  | fetch _ =>
      match a with Respond r => (Resolved r, st) | _ => (Rejected, st) end
  | json r =>
      match a, body r with
      | Resolve, Some data => (Resolved data, st)
      | _, _ => (Rejected, st)
      end
  | getItem key =>
      match a with Resolve => (Resolved (st !! key), st) | _ => (Rejected, st) end
  | setItem key value =>
      match a with Resolve => (Resolved tt, <[key := value]> st) | _ => (Rejected, st) end
  end.

(** What can happen to the mounted screen: a scroll event, a press on the
    toggle link, on the "Read" or the "Save" link of the [i]-th rendered
    item, and the platform settling the [i]-th pending promise. *)
Inductive Action : Type :=
| Scroll (ev : ScrollEvent)
| PressToggle
| PressRead (i : nat)
| PressSave (i : nat)
| Settle (i : nat) (a : Answer).

Section Session.
Context `{Platform}.

(** [useEffect(() => { fetchNews(page) }, [page])] (lines 89-91): after
    a render in which [page] changed, the effect of that render runs. *)
Definition rerender (before : Screen) (w : World) : World :=
  if decide (page (screen w) = page before) then w
  else run (fetchNews (screen w) (page (screen w))) w.

Definition settle (i : nat) (a : Answer) (w : World) : World :=
  match pending w !! i with
  | Some (Suspended c k) =>
      let '(o, st) := perform c a (storage w) in
      run (k o) (mkWorld (screen w) st (delete i (pending w)) (log w))
  | None => w
  end.

Definition handle (a : Action) (w : World) : World :=
  match a with
  | Scroll ev => run (handleScroll (screen w) ev) w
  | PressToggle => run (toggleView (screen w)) w
  | PressRead i =>
      match rendered (screen w) ≫= (.!! i) with
      | Some item => run (openLink item) w
      | None => w
      end
  | PressSave i =>
      if viewingSaved (screen w) then w
      else match news (screen w) !! i with
           | Some item => run (saveArticle item) w
           | None => w
           end
  | Settle i a => settle i a w
  end.

Definition step (w : World) (a : Action) : World :=
  rerender (screen w) (handle a w).

Definition session (w : World) (acts : list Action) : World := foldl step w acts.

(** The first render and its effect, [fetchNews(1)], over the storage
    the device holds. *)
Definition mount (st : gmap string string) : World :=
  run (fetchNews initial (page initial)) (mkWorld initial st [] []).

(** Settles the promise issued last. *)
Definition settle_last (a : Answer) (w : World) : World :=
  step w (Settle (pred (length (pending w))) a).

(** [saveArticle(article)] carried through, both storage calls resolving. *)
Definition save (article : NewsArticle) (w : World) : World :=
  settle_last Resolve (settle_last Resolve (run (saveArticle article) w)).

(** [getSavedArticles()] carried through, the storage call resolving. *)
Definition loadAll (w : World) : World :=
  settle_last Resolve (run getSavedArticles w).
End Session.

(** The feed: the article list, the page number and the has-more flag. *)
Definition feed (s : Screen) : list NewsArticle * Z * bool := (news s, page s, hasMore s).

(** The page numbers requested so far. *)
Definition requests (w : World) : list Z :=
  omap (λ o, match o with HttpGet u => Some (query_page u) | _ => None end) (log w).

(** The response whose body the [i]-th pending promise is reading. *)
Definition body_awaited (w : World) (i : nat) : option Response :=
  match pending w !! i with
  | Some (Suspended c _) =>
      match c with
      | json r => Some r
      | _ => None
      end
  | None => None
  end.

(** The article list a settled promise delivers: that of a response body
    that has one, when [response.json()] resolves. *)
Definition delivered (w : World) (a : Action) : list (list NewsArticle) :=
  match a with
  | Settle i Resolve =>
      match body_awaited w i ≫= body with
      | Some (JObject (Some arr)) => [arr]
      | _ => []
      end
  | _ => []
  end.

(** The article lists delivered in the course of a session, in the order
    of arrival. *)
Fixpoint arrivals `{Platform} (w : World) (acts : list Action) : list (list NewsArticle) :=
  match acts with
  | [] => []
  | a :: rest => delivered w a ++ arrivals (step w a) rest
  end.

(** A response with the article list [l], and a scroll event at the
    bottom of the content. *)
Definition page_of (l : list NewsArticle) : Response := mkResponse (Some (JObject (Some l))).
Definition at_bottom : ScrollEvent := mkScroll 800 180 1000.

(** A session in which fetch after fetch succeeds: each response arrives
    with its article list, and the user then scrolls to the bottom, which
    asks for the next page. *)
Definition browse (pages : list (list NewsArticle)) : list Action :=
  pages ≫= λ l, [Settle 0 (Respond (page_of l)); Settle 0 Resolve; Scroll at_bottom].

(** ** What the suspended code does, in closed form

    The worlds below are what the continuations of the three async
    functions produce; the lemmas of the next part prove that they are,
    from the definitions above. *)

Definition KEY : string := "savedArticles".

Definition update (f : Screen → Screen) (w : World) : World :=
  mkWorld (f (screen w)) (storage w) (pending w) (log w).

Definition emit (o : Output) (w : World) : World :=
  mkWorld (screen w) (storage w) (pending w) (log w ++ [o]).

Definition store (key value : string) (w : World) : World :=
  mkWorld (screen w) (<[key := value]> (storage w)) (pending w) (log w).

Definition drop_task (i : nat) (w : World) : World :=
  mkWorld (screen w) (storage w) (delete i (pending w)) (log w).

(** The [catch] and [finally] of [fetchNews]. *)
Definition fetch_failed (w : World) : World :=
  update (with_loading false) (emit (ConsoleError "Error fetching news") w).

(** The end of [fetchNews], from the settled [response.json()] on. *)
Definition fetch_done (o : Outcome JsonData) (w : World) : World :=
  match o with
  | Resolved (JObject (Some arr)) =>
      if (0 <? length arr)%nat
      then update (with_loading false) (update (with_news (λ prevNews, prevNews ++ arr)) w)
      else update (with_loading false) (update (with_hasMore false) w)
  | Resolved (JObject None) => update (with_loading false) (update (with_hasMore false) w)
  | Resolved JNull | Rejected => fetch_failed w
  end.

(** The articles the end of [fetchNews] appends. *)
Definition payload (o : Outcome JsonData) : list NewsArticle :=
  match o with
  | Resolved (JObject (Some arr)) => arr
  | _ => []
  end.

Definition save_failed (w : World) : World := emit (ConsoleError "Error saving article") w.

Definition load_failed (w : World) : World :=
  emit (ConsoleError "Error fetching saved articles") w.

Section ClosedForms.
Context `{Platform}.

(** The end of [getSavedArticles], from the settled [getItem] on. *)
Definition load_done (o : Outcome (option string)) (w : World) : World :=
  match o with
  | Resolved saved =>
      match read_saved saved with
      | Some v => update (with_savedArticles v) w
      | None => load_failed w
      end
  | Rejected => load_failed w
  end.

(** The end of [saveArticle], from the settled [setItem] on. *)
Definition write_done (o : Outcome unit) (w : World) : World :=
  match o with
  | Resolved _ => emit (Alert "Saved!") w
  | Rejected => save_failed w
  end.

Definition json_ok (k : Outcome JsonData → Async unit) : Prop :=
  ∀ o w, run (k o) w = fetch_done o w.

Definition fetch_ok (k : Outcome Response → Async unit) : Prop :=
  (∀ w, run (k Rejected) w = fetch_failed w) ∧
  ∀ r, ∃ k2, json_ok k2 ∧ ∀ w, run (k (Resolved r)) w = run (Await (json r) k2) w.

Definition load_ok (k : Outcome (option string) → Async unit) : Prop :=
  ∀ o w, run (k o) w = load_done o w.

Definition write_ok (k : Outcome unit → Async unit) : Prop :=
  ∀ o w, run (k o) w = write_done o w.

Definition save_ok (a : NewsArticle) (k : Outcome (option string) → Async unit) : Prop :=
  (∀ w, run (k Rejected) w = save_failed w) ∧
  ∀ saved,
    match read_saved saved with
    | Some (JsArray l) =>
        ∃ k2, write_ok k2 ∧
          ∀ w, run (k (Resolved saved)) w
               = run (Await (setItem KEY (JSON_stringify (l ++ [a]))) k2) w
    | _ => ∀ w, run (k (Resolved saved)) w = save_failed w
    end.

(** Every suspended task is a continuation of the component's code. *)
Definition task_ok (t : Task) : Prop :=
  match t with
  | Suspended c k =>
      match c in Call X return (Outcome X → Async unit) → Prop with
      | fetch _ => fetch_ok
      | json _ => json_ok
      | getItem key => λ k, key = KEY ∧ (load_ok k ∨ ∃ a, save_ok a k)
      | setItem key value => λ k, key = KEY ∧ (∃ l, value = JSON_stringify l) ∧ write_ok k
      end k
  end.

Definition tasks_ok (w : World) : Prop := Forall task_ok (pending w).

(** The atomic changes of the world, labelled with the articles they add
    to the feed. *)
Inductive moves (w : World) : list NewsArticle → World → Prop :=
| mv_stay : moves w [] w
| mv_page :
    hasMore (screen w) = true → loading (screen w) = false →
    moves w [] (update (with_page (λ prevPage, prevPage + 1)%Z) w)
| mv_fetch n k :
    hasMore (screen w) = true → loading (screen w) = false → fetch_ok k →
    moves w [] (run (Await (fetch (top_headlines n)) k) (update (with_loading true) w))
| mv_leave_saved : moves w [] (update (with_viewingSaved false) w)
| mv_enter_saved k :
    load_ok k →
    moves w [] (update (with_viewingSaved true) (run (Await (getItem KEY) k) w))
| mv_open u : moves w [] (emit (OpenURL u) w)
| mv_save a k : save_ok a k → moves w [] (run (Await (getItem KEY) k) w)
| mv_fetch_failed i : moves w [] (fetch_failed (drop_task i w))
| mv_fetch_responded i r k :
    json_ok k → moves w [] (run (Await (json r) k) (drop_task i w))
| mv_fetch_done i o : moves w (payload o) (fetch_done o (drop_task i w))
| mv_load_done i o :
    o = Rejected ∨ o = Resolved (storage w !! KEY) →
    moves w [] (load_done o (drop_task i w))
| mv_save_failed i : moves w [] (save_failed (drop_task i w))
| mv_save_write i a l k :
    read_saved (storage w !! KEY) = Some (JsArray l) → write_ok k →
    moves w []
      (run (Await (setItem KEY (JSON_stringify (l ++ [a]))) k) (drop_task i w))
| mv_written i l :
    moves w [] (emit (Alert "Saved!") (store KEY (JSON_stringify l) (drop_task i w))).

(** No array of bookmarks can be read from the storage: the text under
    the key is missing, empty or not JSON. *)
Definition unreadable (st : gmap string string) : Prop :=
  match st !! KEY with
  | Some text => text = "" ∨ JSON_parse text = None
  | None => True
  end.

(** As long as nothing is stored under the key, no bookmarks are held
    in memory. *)
Definition nothing_kept (w : World) : Prop :=
  storage w !! KEY = None → savedArticles (screen w) = JsArray [].

(** As long as no bookmarks can be read, none are held in memory. *)
Definition nothing_stale (w : World) : Prop :=
  unreadable (storage w) → savedArticles (screen w) = JsArray [].
End ClosedForms.

(** ** A platform to run the model on

    A codec with the two properties of [Lawful], over self-delimiting
    text: a field is written character by character, each preceded by a
    [+], and closed by a dot; an article is its four fields; a list is its
    articles, each preceded by a comma, between brackets. *)

Module Sample.
Fixpoint write_text (s : string) : string :=
  match s with
  | EmptyString => "."
  | String c rest => String "+"%char (String c (write_text rest))
  end.

Fixpoint read_text (t : string) : option (string * string) :=
  match t with
  | String c rest =>
      if Ascii.eqb c "."%char then Some (EmptyString, rest)
      else if Ascii.eqb c "+"%char then
        match rest with
        | String d rest' =>
            '(s, rest'') ← read_text rest'; Some (String d s, rest'')
        | EmptyString => None
        end
      else None
  | EmptyString => None
  end.

Definition write_article (a : NewsArticle) (rest : string) : string :=
  write_text (title a) +:+ write_text (description a) +:+
  write_text (urlToImage a) +:+ write_text (url a) +:+ rest.

Definition read_article (t : string) : option (NewsArticle * string) :=
  '(a, t) ← read_text t; '(b, t) ← read_text t;
  '(c, t) ← read_text t; '(d, t) ← read_text t;
  Some (mkArticle a b c d, t).

Fixpoint write_list (l : list NewsArticle) : string :=
  match l with
  | [] => "]"
  | a :: rest => String ","%char (write_article a (write_list rest))
  end.

Fixpoint read_list (fuel : nat) (t : string) : option (list NewsArticle) :=
  match fuel, t with
  | S fuel, String c rest =>
      if Ascii.eqb c "]"%char then (if bool_decide (rest = "") then Some [] else None)
      else if Ascii.eqb c ","%char then
        '(a, rest') ← read_article rest; l ← read_list fuel rest'; Some (a :: l)
      else None
  | _, _ => None
  end.

Definition platform : Platform := {|
  API_KEY := "0123456789abcdef";
  JSON_stringify l := String "["%char (write_list l);
  JSON_parse t :=
    match t with
    | String c rest =>
        if Ascii.eqb c "["%char then JsArray <$> read_list (String.length rest) rest else None
    | EmptyString => None
    end
|}.
End Sample.

(** Sample data. *)

Definition art1 := mkArticle "Rain" "Rain is expected." "" "https://example.com/rain".
Definition art2 :=
  mkArticle "Sun" "Sun is expected." "https://example.com/sun.png" "https://example.com/sun".
Definition art3 := mkArticle "Wind" "Wind is expected." "" "https://example.com/wind".
Definition fresh : World := mkWorld initial ∅ [] [].
Definition busy : World := mkWorld (with_loading true initial) ∅ [] [].
Definition empty_page : Response := mkResponse (Some (JObject None)).
Definition garbage : gmap string string := {[ KEY := "garbage" ]}.

(** ** One action, in closed form *)

Section Handled.
Context `{Platform}.

(** What [handle] does, action by action and case by case. *)
Inductive handled (w : World) : Action → World → Prop :=
| hd_scroll_stay ev :
    isCloseToBottom ev && hasMore (screen w) && negb (loading (screen w)) = false →
    handled w (Scroll ev) w
| hd_scroll_page ev :
    isCloseToBottom ev = true → hasMore (screen w) = true → loading (screen w) = false →
    handled w (Scroll ev) (update (with_page (λ prevPage, prevPage + 1)%Z) w)
| hd_leave_saved :
    viewingSaved (screen w) = true →
    handled w PressToggle (update (with_viewingSaved false) w)
| hd_enter_saved k :
    viewingSaved (screen w) = false → load_ok k →
    handled w PressToggle (update (with_viewingSaved true) (run (Await (getItem KEY) k) w))
| hd_read_none i :
    rendered (screen w) ≫= (.!! i) = None → handled w (PressRead i) w
| hd_read i item :
    rendered (screen w) ≫= (.!! i) = Some item →
    handled w (PressRead i) (emit (OpenURL (url item)) w)
| hd_save_none i :
    viewingSaved (screen w) = true ∨ news (screen w) !! i = None →
    handled w (PressSave i) w
| hd_save i item k :
    viewingSaved (screen w) = false → news (screen w) !! i = Some item → save_ok item k →
    handled w (PressSave i) (run (Await (getItem KEY) k) w)
| hd_settle_none i a :
    pending w !! i = None → handled w (Settle i a) w
| hd_fetch_failed i a u k :
    pending w !! i = Some (Suspended (fetch u) k) → (∀ r, a ≠ Respond r) →
    handled w (Settle i a) (fetch_failed (drop_task i w))
| hd_fetch_responded i r u k k2 :
    pending w !! i = Some (Suspended (fetch u) k) → json_ok k2 →
    handled w (Settle i (Respond r)) (run (Await (json r) k2) (drop_task i w))
| hd_fetch_done i a r k :
    pending w !! i = Some (Suspended (json r) k) →
    handled w (Settle i a) (fetch_done (perform (json r) a (storage w)).1 (drop_task i w))
| hd_load_done i a k :
    pending w !! i = Some (Suspended (getItem KEY) k) → load_ok k →
    handled w (Settle i a)
      (load_done (perform (getItem KEY) a (storage w)).1 (drop_task i w))
| hd_save_failed i a item k :
    pending w !! i = Some (Suspended (getItem KEY) k) → save_ok item k →
    a ≠ Resolve ∨ (∀ l, read_saved (storage w !! KEY) ≠ Some (JsArray l)) →
    handled w (Settle i a) (save_failed (drop_task i w))
| hd_save_write i item l k k2 :
    pending w !! i = Some (Suspended (getItem KEY) k) → save_ok item k →
    read_saved (storage w !! KEY) = Some (JsArray l) → write_ok k2 →
    handled w (Settle i Resolve)
      (run (Await (setItem KEY (JSON_stringify (l ++ [item]))) k2) (drop_task i w))
| hd_write_failed i a l k :
    pending w !! i = Some (Suspended (setItem KEY (JSON_stringify l)) k) → a ≠ Resolve →
    handled w (Settle i a) (save_failed (drop_task i w))
| hd_written i l k :
    pending w !! i = Some (Suspended (setItem KEY (JSON_stringify l)) k) →
    handled w (Settle i Resolve)
      (emit (Alert "Saved!") (store KEY (JSON_stringify l) (drop_task i w))).
End Handled.

(** ** Measures of a session *)

Section Measures.
Context `{Platform}.

(** The promises of [fetchNews]: the request and the reading of the body. *)
Definition fetching (t : Task) : bool :=
  match t with
  | Suspended c _ =>
      match c with
      | fetch _ | json _ => true
      | _ => false
      end
  end.

(** The number of calls of [fetchNews] that are under way. *)
Definition in_flight (w : World) : nat := length (filter (λ t, fetching t) (pending w)).

(** The URLs requested so far. *)
Definition fetched (w : World) : list Url :=
  omap (λ o, match o with HttpGet u => Some u | _ => None end) (log w).

Definition one_at_a_time (w : World) : Prop :=
  in_flight w = if loading (screen w) then 1 else 0.

Definition consecutive (w : World) : Prop :=
  (1 ≤ page (screen w))%Z ∧ fetched w = top_headlines <$> seqZ 1 (page (screen w)).

(** The scroll events among the actions. *)
Definition is_scroll (a : Action) : bool :=
  match a with Scroll _ => true | _ => false end.

Definition scrolls (acts : list Action) : nat := length (filter (λ a, is_scroll a) acts).

(** An array of bookmarks can be read from the storage. *)
Definition readable (st : gmap string string) : Prop :=
  ∃ l, read_saved (st !! KEY) = Some (JsArray l).

Definition well_kept (w : World) : Prop :=
  readable (storage w) ∧ ∃ l, savedArticles (screen w) = JsArray l.

(** Saving the articles of a list one after the other. *)
Definition save_all (articles : list NewsArticle) (w : World) : World :=
  foldl (λ w article, save article w) w articles.

(** Two saves that overlap: both reads are issued, and resolve, before
    either write; the writes then resolve in the order of the saves. *)
Definition overlapping_saves (a b : NewsArticle) (w : World) : World :=
  let n := length (pending w) in
  session (run (saveArticle b) (run (saveArticle a) w))
    [Settle n Resolve; Settle n Resolve; Settle n Resolve; Settle n Resolve].

(** Whether an action belongs to the feed: a scroll event, or the
    settling of a promise of [fetchNews]. *)
Definition on_feed (w : World) (a : Action) : bool :=
  match a with
  | Scroll _ => true
  | Settle i _ =>
      match pending w !! i with
      | Some t => fetching t
      | None => false
      end
  | _ => false
  end.

(** The bookmarks: the list in memory, the view shown and the storage. *)
Definition bookmarks (w : World) : JsValue * bool * gmap string string :=
  (savedArticles (screen w), viewingSaved (screen w), storage w).
End Measures.

(** ** What the screen shows *)

(** The value of a style property, and a style object. *)
Inductive StyleValue : Type :=
| Num (n : Z)
| Str (s : string).

(** [const styles = StyleSheet.create({...})] (index.tsx, lines 164-179;
    part_000, lines 107-120, without [saveArticle] and [toggleViewLink]). *)
Module styles.
Inductive key : Type :=
| container | scrollContent | titleContainer | headerImage | newsItem | image
| readMore | saveArticle | toggleViewLink
| title | subtitle | defaultSemiBold.

Definition sheet (k : key) : list (string * StyleValue) :=
  match k with
  | container => [("flex", Num 1); ("backgroundColor", Str "#f8f9fa")]
  | scrollContent => [("paddingVertical", Num 20)]
  | titleContainer => [("alignItems", Str "center"); ("marginVertical", Num 16)]
  | headerImage => [("width", Str "100%"); ("height", Num 200); ("resizeMode", Str "cover")]
  | newsItem =>
      [("padding", Num 10); ("borderBottomWidth", Num 1); ("borderBottomColor", Str "#ccc");
       ("marginBottom", Num 10)]
  | image => [("width", Str "100%"); ("height", Num 200); ("marginBottom", Num 10)]
  | readMore => [("color", Str "#007bff"); ("marginTop", Num 10)]
  | saveArticle => [("color", Str "#28a745"); ("marginTop", Num 10)]
  | toggleViewLink => [("color", Str "#ff6347"); ("marginTop", Num 10)]
  | title => [("fontSize", Num 20); ("fontWeight", Str "bold"); ("color", Str "#333")]
  | subtitle => [("fontSize", Num 18); ("fontWeight", Str "500"); ("color", Str "#555")]
  | defaultSemiBold => [("fontSize", Num 16); ("fontWeight", Str "600"); ("color", Str "#666")]
  end.
End styles.

(** A [style] prop: an entry of the sheet or an object written in place. *)
Inductive Style : Type :=
| Sheet (k : styles.key)
| Inline (o : list (string * StyleValue)).

(** What a component returns: host elements, with the JavaScript values
    that JSX expressions leave among the children (a string, [false], an
    array). *)
#[local] Set Warnings "-register-all".
Inductive ReactNode : Type :=
| Text (style : list (option Style)) (children : list ReactNode)
| View (style : list (option Style)) (children : list ReactNode)
| Image (uri : string) (style : Style)
| TouchableOpacity (onPress : Async unit) (children : list ReactNode)
| ActivityIndicator (size color : string)
| ScrollView (style contentContainerStyle : Style) (onScroll : ScrollEvent → Async unit)
    (scrollEventThrottle : Z) (children : list ReactNode)
| Keyed (key : nat) (node : ReactNode)
| NodeList (nodes : list ReactNode)
| JsString (s : string)
| JsFalse.

(** The [type] prop of [ThemedText] (line 16). *)
Inductive TextType : Type := type_title | type_subtitle | type_defaultSemiBold.

(** [styles[type]] *)
Definition styles_at (type : TextType) : styles.key :=
  match type with
  | type_title => styles.title
  | type_subtitle => styles.subtitle
  | type_defaultSemiBold => styles.defaultSemiBold
  end.

(** [ThemedText] (lines 22-25): [type] defaults to ['defaultSemiBold']. *)
Definition ThemedText (type : option TextType) (style : option Style)
    (children : list ReactNode) : ReactNode :=
  let textStyles := [Some (Sheet (styles_at (default type_defaultSemiBold type))); style] in
  Text textStyles children.

(** [ThemedView] (lines 34-36). *)
Definition ThemedView (style : option Style) (children : list ReactNode) : ReactNode :=
  View [Some (Inline [("padding", Num 16); ("backgroundColor", Str "#f8f9fa")]); style]
    children.

Section View.
Context `{Platform}.

(** An entry of the saved list (lines 132-140). *)
Definition saved_item (index : nat) (article : NewsArticle) : ReactNode :=
  Keyed index
    (ThemedView (Some (Sheet styles.newsItem))
       [ThemedText (Some type_subtitle) None [JsString (title article)];
        ThemedText None None [JsString (description article)];
        TouchableOpacity (openLink article)
          [ThemedText None (Some (Sheet styles.readMore)) [JsString "Read"]]]).

(** [item.urlToImage && <Image .../>] (lines 145-147): the empty string
    itself when there is no image. *)
Definition item_image (item : NewsArticle) : ReactNode :=
  if bool_decide (urlToImage item = "") then JsString (urlToImage item)
  else Image (urlToImage item) (Sheet styles.image).

(** An entry of the feed (lines 143-157). *)
Definition news_item (index : nat) (item : NewsArticle) : ReactNode :=
  Keyed index
    (ThemedView (Some (Sheet styles.newsItem))
       [item_image item;
        ThemedText (Some type_subtitle) None [JsString (title item)];
        ThemedText None None [JsString (description item)];
        TouchableOpacity (openLink item)
          [ThemedText None (Some (Sheet styles.readMore)) [JsString "Read"]];
        TouchableOpacity (saveArticle item)
          [ThemedText None (Some (Sheet styles.saveArticle)) [JsString "Save"]]]).

(** [loading && <ActivityIndicator .../>] (line 159). *)
Definition spinner (s : Screen) : ReactNode :=
  if loading s then ActivityIndicator "large" "#0000ff" else JsFalse.

(** What [NewsScreen] returns (lines 112-161); [None] when
    [savedArticles.map] is not a function. *)
Definition view (s : Screen) : option ReactNode :=
  items ← (if viewingSaved s
           then match savedArticles s with
                | JsArray l => Some (imap saved_item l)
                | JsOther => None
                end
           else Some (imap news_item (news s)));
  Some
    (ScrollView (Sheet styles.container) (Sheet styles.scrollContent) (handleScroll s) 16
       [Image "https://example.com/header-image.png" (Sheet styles.headerImage);
        ThemedView (Some (Sheet styles.titleContainer))
          [ThemedText (Some type_title) None [JsString "Welcome to My News App!"];
           TouchableOpacity (toggleView s)
             [ThemedText None (Some (Sheet styles.toggleViewLink))
                [JsString (if viewingSaved s then "Back to News" else "View Saved Articles")]]];
        NodeList items;
        spinner s]).

(** An entry of the feed in the earlier variant (part_000, lines 90-101). *)
Definition basic_item (index : nat) (item : NewsArticle) : ReactNode :=
  Keyed index
    (ThemedView (Some (Sheet styles.newsItem))
       [item_image item;
        ThemedText (Some type_subtitle) None [JsString (title item)];
        ThemedText None None [JsString (description item)];
        TouchableOpacity (openLink item)
          [ThemedText None (Some (Sheet styles.readMore)) [JsString "Read Article"]]]).

(** What the earlier variant of [NewsScreen] returns (part_000, lines
    77-104). *)
Definition basic_view (s : Screen) : ReactNode :=
  ScrollView (Sheet styles.container) (Sheet styles.scrollContent) (handleScroll s) 16
    [Image "https://example.com/header-image.png" (Sheet styles.headerImage);
     ThemedView (Some (Sheet styles.titleContainer))
       [ThemedText (Some type_title) None [JsString "Welcome to My News App!"]];
     NodeList (imap basic_item (news s));
     spinner s].

(** The links and the images of the entry of an article: in the saved
    list ([saved] true, lines 132-140) and in the feed (lines 143-157). *)
Definition entry_links (saved : bool) (item : NewsArticle) : list (string * Async unit) :=
  if saved then [("Read", openLink item)]
  else [("Read", openLink item); ("Save", saveArticle item)].

Definition entry_images (saved : bool) (item : NewsArticle) : list string :=
  if saved || bool_decide (urlToImage item = "") then [] else [urlToImage item].
End View.

(** The text a node shows. *)
Fixpoint text_of (n : ReactNode) : string :=
  match n with
  | JsString s => s
  | Text _ cs | View _ cs | TouchableOpacity _ cs | NodeList cs
  | ScrollView _ _ _ _ cs => foldr (λ c rest, text_of c +:+ rest) "" cs
  | Keyed _ n => text_of n
  | Image _ _ | ActivityIndicator _ _ | JsFalse => ""
  end.

(** The links of a node: the text and the [onPress] of each
    [TouchableOpacity], from top to bottom. *)
Fixpoint links (n : ReactNode) : list (string * Async unit) :=
  match n with
  | TouchableOpacity h cs => [(foldr (λ c rest, text_of c +:+ rest) "" cs, h)]
  | Text _ cs | View _ cs | NodeList cs | ScrollView _ _ _ _ cs => concat (map links cs)
  | Keyed _ n => links n
  | Image _ _ | ActivityIndicator _ _ | JsString _ | JsFalse => []
  end.

(** The images of a node. *)
Fixpoint images (n : ReactNode) : list string :=
  match n with
  | Image uri _ => [uri]
  | Text _ cs | View _ cs | TouchableOpacity _ cs | NodeList cs
  | ScrollView _ _ _ _ cs => concat (map images cs)
  | Keyed _ n => images n
  | ActivityIndicator _ _ | JsString _ | JsFalse => []
  end.

(** The entries of the list a screen shows, and its other children. *)
Definition entries (n : ReactNode) : list ReactNode :=
  match n with
  | ScrollView _ _ _ _ cs =>
      concat (map (λ c, match c with NodeList l => l | _ => [] end) cs)
  | _ => []
  end.

Definition key_of (n : ReactNode) : option nat :=
  match n with Keyed k _ => Some k | _ => None end.

(** The handler of the first link with the text [label]. *)
Definition link (label : string) (n : ReactNode) : option (Async unit) :=
  snd <$> head (filter (λ p, p.1 = label) (links n)).

(** Whether the activity indicator is among the children of the screen. *)
Definition spinning (n : ReactNode) : bool :=
  match n with
  | ScrollView _ _ _ _ cs =>
      existsb (λ c, match c with ActivityIndicator _ _ => true | _ => false end) cs
  | _ => false
  end.

(** A platform that also reads the text [null], which is JSON and not an
    array, and more sample data. *)
Definition null_platform : Platform := {|
  API_KEY := "0123456789abcdef";
  JSON_stringify := @JSON_stringify Sample.platform;
  JSON_parse text :=
    if bool_decide (text = "null") then Some JsOther else @JSON_parse Sample.platform text
|}.
Definition null_stored : World := mkWorld initial {[ KEY := "null" ]} [] [].
Definition garbage_stored : World := mkWorld initial garbage [] [].
(** Bookmarks read earlier are in memory, and the text under the key has
    been replaced since by one that is not JSON. *)
Definition stale : World :=
  mkWorld (with_savedArticles (JsArray [art3]) initial) garbage [] [].
Definition other_key : gmap string string := {[ "theme" := "dark" ]}.
Definition two_articles : Screen := with_news (λ _, [art1; art2]) initial.

(** * Results *)

Section Proofs.
Context `{Platform}.

Lemma lookup_last_task (l : list Task) t : (l ++ [t]) !! pred (length (l ++ [t])) = Some t.
Proof.
  rewrite length_app. simpl. replace (pred (length l + 1)) with (length l) by lia.
  by rewrite list_lookup_middle.
Qed.

Lemma delete_last_task (l : list Task) t : delete (pred (length (l ++ [t]))) (l ++ [t]) = l.
Proof.
  rewrite length_app. simpl. replace (pred (length l + 1)) with (length l) by lia.
  rewrite delete_middle. by rewrite app_nil_r.
Qed.

(** *** The continuations of the three async functions *)

Lemma fetchNews_guarded s n :
  loading s = true ∨ hasMore s = false → fetchNews s n = Return tt.
Proof. unfold fetchNews. intros [-> | ->]; [done | by destruct (loading s)]. Qed.

Lemma fetchNews_starts s n :
  loading s = false → hasMore s = true →
  ∃ k, fetch_ok k ∧
    fetchNews s n = SetState (with_loading true) (Await (fetch (top_headlines n)) k).
Proof.
  intros Hl Hm. unfold fetchNews. rewrite Hl, Hm. cbn.
  eexists. split; [|reflexivity].
  split; [done|].
  intros r. cbn. eexists. split; [|done].
  intros o w. by destruct o as [[|[[|a arr]|]]|].
Qed.

Lemma getSavedArticles_starts :
  ∃ k, load_ok k ∧ getSavedArticles = Await (getItem KEY) k.
Proof.
  unfold getSavedArticles. cbn. eexists. split; [|reflexivity].
  intros o w. destruct o as [saved|]; [|done]. cbn.
  unfold parse_saved. by destruct (read_saved saved).
Qed.

Lemma saveArticle_starts a :
  ∃ k, save_ok a k ∧ saveArticle a = Await (getItem KEY) k.
Proof.
  unfold saveArticle. cbn. eexists. split; [|reflexivity].
  split; [done|].
  intros saved. cbn -[read_saved]. unfold parse_saved.
  destruct (read_saved saved) as [[l|]|]; cbn; try done.
  eexists. split; [|done]. by intros [[]|] w.
Qed.

(** *** Every step is made of atomic changes *)

(** Case analysis on an atomic change, with the names the proofs use. *)
Ltac moves_cases Hm :=
  destruct Hm as [ | | n k ? ? Hk | | k Hk | u | a k Hk | i | i r k Hk
                 | i o | i o Ho | i | i a l k Hr Hk | i l ].

Lemma rerender_moves before w : moves w [] (rerender before w).
Proof.
  unfold rerender. case_decide; [constructor|].
  destruct (loading (screen w)) eqn:Hl; [rewrite fetchNews_guarded by auto; constructor|].
  destruct (hasMore (screen w)) eqn:Hm; [|rewrite fetchNews_guarded by auto; constructor].
  destruct (fetchNews_starts (screen w) (page (screen w)) Hl Hm) as (k & Hk & ->).
  by apply mv_fetch.
Qed.

Lemma settle_moves i a w :
  tasks_ok w → moves w (concat (delivered w (Settle i a))) (settle i a w).
Proof.
  intros Hw. unfold settle, delivered, body_awaited.
  destruct (pending w !! i) as [[X c k]|] eqn:Hi;
    [|destruct a; constructor].
  assert (Hk : task_ok (Suspended c k)) by (eapply Forall_lookup_1; eauto).
  clear Hi. revert k Hk. destruct c as [u|r|key|key value]; intros k Hk; cbn in Hk.
  - destruct Hk as [Hrej Hres].
    destruct a as [| |r]; cbn; rewrite ?Hrej; try apply mv_fetch_failed.
    destruct (Hres r) as (k2 & Hk2 & ->). by apply mv_fetch_responded.
  - destruct a as [| |r']; cbn; rewrite ?Hk; try apply (mv_fetch_done w i Rejected).
    destruct (body r) as [data|]; rewrite Hk; [|apply (mv_fetch_done w i Rejected)].
    replace (concat _) with (payload (Resolved data));
      [apply mv_fetch_done|].
    destruct data as [|[arr|]]; cbn; by rewrite ?app_nil_r.
  - destruct Hk as [-> [Hk | [art [Hrej Hres]]]].
    + destruct a; cbn; rewrite Hk; apply mv_load_done; auto.
    + destruct a; cbn; rewrite ?Hrej; try apply mv_save_failed.
      specialize (Hres (storage w !! KEY)).
      destruct (read_saved (storage w !! KEY)) as [[l|]|] eqn:Hr;
        rewrite ?Hres; try apply mv_save_failed.
      destruct Hres as (k2 & Hk2 & ->). by apply mv_save_write.
  - destruct Hk as (-> & [l ->] & Hk).
    destruct a; cbn; rewrite Hk; try apply mv_save_failed. apply mv_written.
Qed.

Lemma handle_moves a w :
  tasks_ok w → moves w (concat (delivered w a)) (handle a w).
Proof.
  intros Hw. destruct a as [ev| |i|i|i a]; cbn [handle].
  - unfold handleScroll.
    destruct (isCloseToBottom ev); cbn; [|constructor].
    destruct (hasMore (screen w)) eqn:Hm; cbn; [|constructor].
    destruct (loading (screen w)) eqn:Hl; cbn; [constructor|].
    by apply mv_page.
  - unfold toggleView. destruct (viewingSaved (screen w)).
    + apply mv_leave_saved.
    + destruct getSavedArticles_starts as (k & Hk & ->). by apply mv_enter_saved.
  - destruct (rendered (screen w) ≫= _); [apply mv_open | constructor].
  - destruct (viewingSaved (screen w)); [constructor|].
    destruct (news (screen w) !! i) as [item|]; [|constructor].
    destruct (saveArticle_starts item) as (k & Hk & ->). by apply (mv_save w item).
  - by apply settle_moves.
Qed.

Lemma mount_tasks_ok st : tasks_ok (mount st).
Proof.
  unfold mount.
  destruct (fetchNews_starts initial (page initial)) as (k & Hk & ->); [done..|].
  unfold tasks_ok. cbn. by constructor.
Qed.

Lemma moves_tasks_ok w d w' : tasks_ok w → moves w d w' → tasks_ok w'.
Proof.
  unfold tasks_ok. intros Hw Hm.
  assert (Hd : ∀ i, Forall task_ok (delete i (pending w)))
    by (intros; by apply Forall_delete).
  moves_cases Hm; cbn; try done;
    try (apply Forall_app; split; [done|]; apply Forall_singleton; cbn;
         first [done | repeat split; eauto]).
  - destruct o as [[|[[|]|]]|]; cbn; apply Hd.
  - destruct o as [saved|]; cbn; [destruct (read_saved saved)|]; cbn; apply Hd.
Qed.

Lemma moves_news w d w' : moves w d w' → news (screen w') = news (screen w) ++ d.
Proof.
  intros Hm. moves_cases Hm; cbn; rewrite ?app_nil_r; try done.
  - by destruct o as [[|[[|]|]]|]; cbn; rewrite ?app_nil_r.
  - destruct o as [saved|]; [|done]. cbn. by destruct (read_saved saved).
Qed.

Lemma step_tasks_ok w a : tasks_ok w → tasks_ok (step w a).
Proof.
  intros Hw. unfold step.
  eapply moves_tasks_ok; [|apply rerender_moves].
  eapply moves_tasks_ok; [done|by apply handle_moves].
Qed.

Lemma session_cons w a acts : session w (a :: acts) = session (step w a) acts.
Proof. reflexivity. Qed.

Lemma session_app w acts more : session w (acts ++ more) = session (session w acts) more.
Proof. apply foldl_app. Qed.

Lemma session_tasks_ok acts w : tasks_ok w → tasks_ok (session w acts).
Proof.
  revert w. induction acts as [|a acts IH]; intros w Hw; [done|].
  rewrite session_cons. apply IH. by apply step_tasks_ok.
Qed.

Lemma step_news w a :
  tasks_ok w → news (screen (step w a)) = news (screen w) ++ concat (delivered w a).
Proof.
  intros Hw. unfold step.
  rewrite (moves_news _ _ _ (rerender_moves _ _)), app_nil_r.
  by apply moves_news, handle_moves.
Qed.

Lemma arrivals_app w acts more :
  arrivals w (acts ++ more) = arrivals w acts ++ arrivals (session w acts) more.
Proof.
  revert w. induction acts as [|a acts IH]; intros w; [done|].
  cbn [app arrivals]. rewrite session_cons, IH. by rewrite app_assoc.
Qed.

Lemma session_news acts w :
  tasks_ok w →
  news (screen (session w acts)) = news (screen w) ++ concat (arrivals w acts).
Proof.
  revert w. induction acts as [|a acts IH]; intros w Hw.
  - cbn. by rewrite app_nil_r.
  - rewrite session_cons. cbn [arrivals].
    rewrite IH by by apply step_tasks_ok.
    rewrite step_news by done. by rewrite concat_app, app_assoc.
Qed.

(** *** Once [hasMore] is false *)

Lemma requests_emit o w :
  (∀ u, o ≠ HttpGet u) → requests (emit o w) = requests w.
Proof.
  intros Ho. unfold requests. cbn. rewrite omap_app. cbn.
  destruct o; rewrite ?app_nil_r; try done. by destruct (Ho u).
Qed.

Lemma moves_hasMore w d w' :
  hasMore (screen w) = false → moves w d w' →
  hasMore (screen w') = false ∧ requests w' = requests w.
Proof.
  intros Hf Hm.
  moves_cases Hm;
    try congruence; try (split; [done|]);
    try (by apply (requests_emit _ (drop_task _ w)));
    try (by apply (requests_emit _ w)).
  - done.
  - done.
  - destruct o as [[|[[|]|]]|]; (split; [done|]); try done;
      by apply (requests_emit (ConsoleError _) (drop_task i w)).
  - destruct o as [saved|]; cbn; [destruct (read_saved saved)|]; (split; [done|]);
      try done; by apply (requests_emit (ConsoleError _) (drop_task i w)).
Qed.

Lemma step_hasMore w a :
  tasks_ok w → hasMore (screen w) = false →
  hasMore (screen (step w a)) = false ∧ requests (step w a) = requests w.
Proof.
  intros Hw Hf. unfold step.
  destruct (moves_hasMore _ _ _ Hf (handle_moves a w Hw)) as [Hf' Hr'].
  destruct (moves_hasMore _ _ _ Hf' (rerender_moves (screen w) (handle a w))) as [? Hr''].
  split; [done|congruence].
Qed.

Lemma session_hasMore acts w :
  tasks_ok w → hasMore (screen w) = false →
  hasMore (screen (session w acts)) = false ∧ requests (session w acts) = requests w.
Proof.
  revert w. induction acts as [|a acts IH]; intros w Hw Hf; [done|].
  rewrite session_cons.
  destruct (step_hasMore w a Hw Hf) as [Hf' Hr].
  destruct (IH (step w a)) as [? Hr']; [by apply step_tasks_ok|done|].
  split; [done|congruence].
Qed.

(** *** No stale bookmarks *)

Lemma moves_nothing_stale `{!Lawful} w d w' :
  nothing_stale w → moves w d w' → nothing_stale w'.
Proof.
  unfold nothing_stale. intros Hw Hm.
  moves_cases Hm;
    try done.
  - by destruct o as [[|[[|]|]]|].
  - destruct Ho as [-> | ->]; [done|]. cbn.
    destruct (read_saved (storage w !! KEY)) as [v|] eqn:Hr; [|done].
    cbn. intros Hu. unfold unreadable in Hu. unfold read_saved in Hr.
    destruct (storage w !! KEY) as [text|]; [|congruence].
    case_bool_decide; [congruence|]. destruct Hu; congruence.
  - cbn. unfold unreadable. rewrite lookup_insert_eq.
    intros [Hu | Hu]; [by apply stringify_truthy in Hu|].
    by rewrite parse_stringify in Hu.
Qed.

Lemma session_nothing_stale `{!Lawful} acts w :
  tasks_ok w → nothing_stale w → nothing_stale (session w acts).
Proof.
  revert w. induction acts as [|a acts IH]; intros w Hw Hs; [done|].
  rewrite session_cons. apply IH; [by apply step_tasks_ok|].
  unfold step. eapply moves_nothing_stale; [|apply rerender_moves].
  eapply moves_nothing_stale; [done|by apply handle_moves].
Qed.

(** *** One call of an async function, carried through *)

Lemma settle_last_await {X} (c : Call X) k a w :
  settle_last a (run (Await c k) w)
  = rerender (screen w)
      (run (k (perform c a (storage w)).1)
         (mkWorld (screen w) (perform c a (storage w)).2 (pending w) (log w ++ [issued c]))).
Proof.
  unfold settle_last, step, handle, settle. cbn [run pending screen storage log].
  rewrite lookup_last_task, delete_last_task.
  by destruct (perform c a (storage w)).
Qed.

Lemma run_SetState f m w : run (SetState f m) w = run m (update f w).
Proof. reflexivity. Qed.

Lemma rerender_same before w : page (screen w) = page before → rerender before w = w.
Proof. intros Hp. unfold rerender. by case_decide. Qed.

(** [fetchNews] from a state that passes the guard: the world while the
    request is out, after the request has settled, and after the body
    has. *)
Lemma fetch_round w n a1 a2 :
  loading (screen w) = false → hasMore (screen w) = true →
  let w0 := emit (HttpGet (top_headlines n)) (update (with_loading true) w) in
  let w1 := run (fetchNews (screen w) n) w in
  let w2 := settle_last a1 w1 in
  pending w1 = pending w ++ drop (length (pending w)) (pending w1) ∧
  length (pending w1) = S (length (pending w)) ∧
  screen w1 = screen w0 ∧ storage w1 = storage w0 ∧ log w1 = log w0 ∧
  match a1 with
  | Respond r =>
      length (pending w2) = S (length (pending w)) ∧
      screen w2 = screen w0 ∧ storage w2 = storage w0 ∧
      log w2 = log w0 ++ [BodyRead] ∧
      settle_last a2 w2
      = fetch_done (perform (json r) a2 (storage w)).1 (emit BodyRead w0)
  | _ => w2 = fetch_failed w0
  end.
Proof.
  intros Hl Hm w0 w1 w2. subst w1 w2 w0.
  destruct (fetchNews_starts (screen w) n Hl Hm) as (k & [Hrej Hres] & ->).
  rewrite run_SetState, settle_last_await.
  split; [cbn; by rewrite drop_app_length|].
  split; [cbn; rewrite length_app; cbn; lia|].
  do 3 (split; [done|]).
  destruct a1 as [| |r]; cbn [perform fst snd]; rewrite ?Hrej;
    try by rewrite rerender_same.
  destruct (Hres r) as (k2 & Hk2 & ->).
  rewrite rerender_same by done.
  rewrite settle_last_await, Hk2.
  split; [cbn; rewrite length_app; cbn; lia|].
  do 3 (split; [done|]).
  rewrite rerender_same; [|by destruct (perform (json r) a2 _).1 as [[|[[|]|]]|]].
  by destruct r as [[data|]], a2.
Qed.

(** [getSavedArticles], carried through. *)
Lemma load_round w a :
  settle_last a (run getSavedArticles w)
  = load_done (perform (getItem KEY) a (storage w)).1 (emit (StorageGet KEY) w).
Proof.
  destruct getSavedArticles_starts as (k & Hk & ->).
  rewrite settle_last_await, Hk.
  rewrite rerender_same; [by destruct a|].
  destruct (perform _ a _).1 as [saved|]; cbn; [by destruct (read_saved saved)|done].
Qed.

(** [saveArticle], carried through. *)
Lemma save_round w article a1 a2 :
  let w0 := emit (StorageGet KEY) w in
  let w1 := run (saveArticle article) w in
  let w2 := settle_last a1 w1 in
  screen w1 = screen w0 ∧ storage w1 = storage w0 ∧ log w1 = log w0 ∧
  length (pending w1) = S (length (pending w)) ∧
  match a1, read_saved (storage w !! KEY) with
  | Resolve, Some (JsArray l) =>
      let text := JSON_stringify (l ++ [article]) in
      length (pending w2) = S (length (pending w)) ∧
      screen w2 = screen w ∧ storage w2 = storage w ∧
      log w2 = log w0 ++ [StorageSet KEY text] ∧
      settle_last a2 w2
      = match a2 with
        | Resolve => emit (Alert "Saved!") (store KEY text (emit (StorageSet KEY text) w0))
        | _ => save_failed (emit (StorageSet KEY text) w0)
        end
  | _, _ => w2 = save_failed w0
  end.
Proof.
  intros w0 w1 w2. subst w0 w1 w2.
  destruct (saveArticle_starts article) as (k & [Hrej Hres] & ->).
  rewrite settle_last_await.
  do 3 (split; [done|]).
  split; [cbn; rewrite length_app; cbn; lia|].
  specialize (Hres (storage w !! KEY)).
  destruct a1; cbn [perform fst snd]; rewrite ?Hrej; try by rewrite rerender_same.
  destruct (read_saved (storage w !! KEY)) as [[l|]|];
    rewrite ?Hres; try by rewrite rerender_same.
  destruct Hres as (k2 & Hk2 & ->).
  rewrite rerender_same by done.
  rewrite settle_last_await, Hk2.
  split; [cbn; rewrite length_app; cbn; lia|].
  do 3 (split; [done|]).
  by destruct a2; cbn; rewrite rerender_same.
Qed.

Lemma moves_nothing_kept w d w' : nothing_kept w → moves w d w' → nothing_kept w'.
Proof.
  unfold nothing_kept. intros Hw Hm.
  moves_cases Hm;
    try done.
  - by destruct o as [[|[[|]|]]|].
  - destruct Ho as [-> | ->]; [done|]. cbn.
    destruct (read_saved (storage w !! KEY)) as [v|] eqn:Hr; [|done].
    cbn. intros Hn. rewrite Hn in Hr. cbn in Hr. congruence.
  - cbn. by rewrite lookup_insert_eq.
Qed.

Lemma session_nothing_kept acts w :
  tasks_ok w → nothing_kept w → nothing_kept (session w acts).
Proof.
  revert w. induction acts as [|a acts IH]; intros w Hw Hs; [done|].
  rewrite session_cons. apply IH; [by apply step_tasks_ok|].
  unfold step. eapply moves_nothing_kept; [|apply rerender_moves].
  eapply moves_nothing_kept; [done|by apply handle_moves].
Qed.

(** *** Fetch after fetch *)

Lemma browse_round w u k l :
  pending w = [Suspended (fetch u) k] → fetch_ok k →
  hasMore (screen w) = true → l ≠ [] →
  let round := [Settle 0 (Respond (page_of l)); Settle 0 Resolve; Scroll at_bottom] in
  (∃ u' k', pending (session w round) = [Suspended (fetch u') k'] ∧ fetch_ok k') ∧
  hasMore (screen (session w round)) = true ∧
  arrivals w round = [l].
Proof.
  intros Hp [Hrej Hres] Hm Hl round.
  destruct (Hres (page_of l)) as (k2 & Hk2 & Hrun).
  destruct w as [s st pend lg]. cbn in Hp, Hm. subst pend.
  set (w := mkWorld s st [Suspended (fetch u) k] lg).
  assert (H1 : step w (Settle 0 (Respond (page_of l)))
               = mkWorld s st [Suspended (json (page_of l)) k2] (lg ++ [BodyRead])).
  { unfold step, handle, settle. cbn [pending lookup list_lookup w perform].
    cbn [screen storage log]. rewrite Hrun. by rewrite rerender_same. }
  set (w1 := mkWorld s st [Suspended (json (page_of l)) k2] (lg ++ [BodyRead])) in *.
  assert (H2 : step w1 (Settle 0 Resolve)
               = mkWorld (with_loading false (with_news (λ prevNews, prevNews ++ l) s))
                   st [] (lg ++ [BodyRead])).
  { unfold step, handle, settle. cbn [pending lookup list_lookup w1 perform page_of body].
    rewrite Hk2. destruct l as [|a l]; [done|]. by rewrite rerender_same. }
  set (w2 := mkWorld (with_loading false (with_news (λ prevNews, prevNews ++ l) s))
               st [] (lg ++ [BodyRead])) in *.
  destruct (fetchNews_starts (with_page (λ prevPage, prevPage + 1)%Z (screen w2))
              (page s + 1)) as (k' & Hk' & Hstart); [done..|].
  assert (H3 : step w2 (Scroll at_bottom)
               = run (Await (fetch (top_headlines (page s + 1))) k')
                   (update (with_loading true)
                      (update (with_page (λ prevPage, prevPage + 1)%Z) w2))).
  { unfold w2 in Hstart |- *. unfold step, handle, handleScroll.
    cbn [screen hasMore loading with_loading with_news]. rewrite Hm.
    change (isCloseToBottom at_bottom) with true. cbn [andb negb].
    unfold rerender. cbn [setPage run screen page with_page with_loading with_news].
    case_decide; [lia|]. cbn [screen page with_page with_loading with_news] in Hstart.
    by rewrite Hstart. }
  unfold round, session. cbn [foldl arrivals]. rewrite H1, H2, H3.
  split; [by exists (top_headlines (page s + 1)), k'|].
  split; [done|].
  done.
Qed.

Lemma browse_session pages :
  Forall (λ l, l ≠ []) pages →
  ∀ w u k,
    pending w = [Suspended (fetch u) k] → fetch_ok k → hasMore (screen w) = true →
    arrivals w (browse pages) = pages.
Proof.
  induction 1 as [|l pages Hl _ IH]; intros w u k Hp Hk Hm; [done|].
  destruct (browse_round w u k l Hp Hk Hm Hl) as ((u' & k' & Hp' & Hk') & Hm' & Ha).
  unfold browse. cbn [mbind list_bind]. fold (browse pages).
  rewrite arrivals_app, Ha. cbn [app]. f_equal. by eapply IH.
Qed.

(** ** The feed *)

(** C1.  When fetch after fetch succeeds, each with a non-empty article
    list, the feed's article list is the concatenation of the returned
    lists in the order of arrival, and its length is the sum of their
    lengths: nothing is reordered and nothing is dropped as a duplicate.
    More generally, in every session of the mounted screen, whatever else
    happens in between, the article list is the concatenation of the lists
    that the settled response bodies have delivered so far. *)
Theorem feed_is_concat_of_arrivals st :
  (∀ pages, Forall (λ l, l ≠ []) pages →
     let w := session (mount st) (browse pages) in
     arrivals (mount st) (browse pages) = pages ∧
     news (screen w) = concat pages ∧
     length (news (screen w)) = sum_list (length <$> pages)) ∧
  (∀ acts,
     let w := session (mount st) acts in
     news (screen w) = concat (arrivals (mount st) acts) ∧
     length (news (screen w)) = sum_list (length <$> arrivals (mount st) acts)).
Proof.
  assert (Hn : ∀ acts, news (screen (session (mount st) acts))
                       = concat (arrivals (mount st) acts)).
  { intros acts. rewrite session_news by apply mount_tasks_ok.
    unfold mount.
    by destruct (fetchNews_starts initial (page initial)) as (k & _ & ->). }
  split.
  - intros pages Hpages w.
    assert (Ha : arrivals (mount st) (browse pages) = pages).
    { unfold mount.
      destruct (fetchNews_starts initial (page initial)) as (k & Hk & ->); [done..|].
      by eapply browse_session. }
    unfold w. rewrite Hn, Ha. split; [done|]. split; [done|]. apply length_concat.
  - intros acts w. unfold w. rewrite Hn. split; [done|]. apply length_concat.
Qed.

(** C2.  When, in a session of the mounted screen, the body of a response
    arrives with an absent or an empty article list, [hasMore] becomes
    false; it is false after every further sequence of actions, and no
    further request is issued. *)
Theorem hasMore_false_is_final st acts i r more :
  let w := session (mount st) acts in
  body_awaited w i = Some r →
  body r = Some (JObject None) ∨ body r = Some (JObject (Some [])) →
  let w1 := step w (Settle i Resolve) in
  hasMore (screen w1) = false ∧
  hasMore (screen (session w1 more)) = false ∧
  requests (session w1 more) = requests w1.
Proof.
  intros w Hi Hr w1.
  assert (Hw : tasks_ok w) by apply session_tasks_ok, mount_tasks_ok.
  assert (H1 : hasMore (screen w1) = false).
  { unfold w1, step, handle, settle. unfold body_awaited in Hi.
    destruct (pending w !! i) as [[X c k]|] eqn:Hl; [|done].
    assert (Hk : task_ok (Suspended c k)) by (eapply Forall_lookup_1; eauto).
    revert k Hk Hl. destruct c as [u|r'|key|key value]; try done.
    intros k Hk _. cbn in Hk. injection Hi as ->.
    cbn [perform].
    destruct Hr as [-> | ->]; rewrite Hk; by rewrite rerender_same. }
  split; [done|].
  apply session_hasMore; [by apply step_tasks_ok|done].
Qed.

(** C3.  Called while [loading] is true or [hasMore] is false, [fetchNews]
    returns at once, with any page number: it issues no request, and the
    state, the storage, the pending promises and the outputs are as they
    were. *)
Theorem fetchNews_guard_is_noop w n :
  loading (screen w) = true ∨ hasMore (screen w) = false →
  fetchNews (screen w) n = Return tt ∧ run (fetchNews (screen w) n) w = w.
Proof. intros Hg. by rewrite fetchNews_guarded. Qed.

(** C5.  A call of [fetchNews] that passes the guard sets [loading] to
    true.  Whatever the platform answers, the call ends with [loading]
    false: either when the request has settled (it failed), or when the
    body has, [loading] being true in between. *)
Theorem loading_is_released w n a1 a2 :
  loading (screen w) = false → hasMore (screen w) = true →
  let w1 := run (fetchNews (screen w) n) w in
  let w2 := settle_last a1 w1 in
  let w3 := settle_last a2 w2 in
  loading (screen w1) = true ∧ length (pending w1) = S (length (pending w)) ∧
  ((pending w2 = pending w ∧ loading (screen w2) = false) ∨
   (length (pending w2) = S (length (pending w)) ∧ loading (screen w2) = true ∧
    pending w3 = pending w ∧ loading (screen w3) = false)).
Proof.
  intros Hl Hm w1 w2 w3.
  destruct (fetch_round w n a1 a2 Hl Hm) as (_ & Hlen & Hs & _ & _ & Hrest).
  fold w1 w2 in Hs, Hlen, Hrest. fold w3 in Hrest.
  split; [by rewrite Hs|]. split; [done|].
  destruct a1 as [| |r]; [left; by rewrite Hrest..|right].
  destruct Hrest as (Hlen2 & Hs2 & _ & _ & ->).
  split; [done|]. split; [by rewrite Hs2|].
  by destruct (perform (json r) a2 (storage w)).1 as [[|[[|]|]]|].
Qed.

(** C9.  When a call of [fetchNews] fails (the request is rejected, the
    body cannot be read as JSON, or it is [null]), the error is logged
    and [loading] is released; the article list, the page number and
    [hasMore], the bookmarks in memory and in the storage, and the
    pending promises are as they were before the call. *)
Theorem fetch_failure_only_logs w n a1 a2 :
  loading (screen w) = false → hasMore (screen w) = true →
  let w1 := run (fetchNews (screen w) n) w in
  let w2 := settle_last a1 w1 in
  let w3 := settle_last a2 w2 in
  let unchanged w' :=
    feed (screen w') = feed (screen w) ∧ loading (screen w') = false ∧
    savedArticles (screen w') = savedArticles (screen w) ∧
    viewingSaved (screen w') = viewingSaved (screen w) ∧
    storage w' = storage w ∧ pending w' = pending w in
  ((∀ r, a1 ≠ Respond r) →
     unchanged w2 ∧ log w2 = log w1 ++ [ConsoleError "Error fetching news"]) ∧
  (∀ r, a1 = Respond r →
     a2 ≠ Resolve ∨ body r = None ∨ body r = Some JNull →
     unchanged w3 ∧ log w3 = log w2 ++ [ConsoleError "Error fetching news"]).
Proof.
  intros Hl Hm w1 w2 w3 unchanged.
  destruct (fetch_round w n a1 a2 Hl Hm) as (_ & _ & _ & _ & Hlog & Hrest).
  fold w1 w2 in Hlog, Hrest. fold w3 in Hrest.
  split.
  - intros Ha. destruct a1 as [| |r]; [| |by destruct (Ha r)];
      rewrite Hrest, Hlog; by destruct w as [[] ? ? ?].
  - intros r -> Hbad. destruct Hrest as (_ & _ & _ & -> & ->).
    assert (Ho : (perform (json r) a2 (storage w)).1 = Rejected
                 ∨ (perform (json r) a2 (storage w)).1 = Resolved JNull).
    { destruct Hbad as [Ha | [Hb | Hb]].
      - left. by destruct a2, (body r).
      - left. cbn. rewrite Hb. by destruct a2.
      - cbn. rewrite Hb. destruct a2; auto. }
    destruct Ho as [-> | ->]; by destruct w as [[] ? ? ?].
Qed.

(** Addition of doubles is commutative, and [geb] is [<=] read from right
    to left: both follow from the IEEE 754 specification of the
    operations. *)
Lemma SFadd_comm prec emax x y : SFadd prec emax x y = SFadd prec emax y x.
Proof.
  destruct x as [[]|[]| |sx mx ex], y as [[]|[]| |sy my ey]; try reflexivity.
  cbn. by rewrite Z.min_comm, Z.add_comm.
Qed.

Lemma float_add_comm (x y : float) : (x + y)%float = (y + x)%float.
Proof.
  rewrite <- (SF2Prim_Prim2SF (x + y)), <- (SF2Prim_Prim2SF (y + x)).
  rewrite !add_spec. unfold SF64add. by rewrite SFadd_comm.
Qed.

Lemma SFcompare_swap x y : SFcompare y x = CompOpp <$> SFcompare x y.
Proof.
  destruct x as [[]|[]| |[] mx ex], y as [[]|[]| |[] my ey]; try reflexivity; cbn;
    rewrite (Z.compare_antisym ex ey); destruct (ex ?= ey)%Z; cbn; try reflexivity;
    rewrite (Pos.compare_cont_antisym _ _ Eq); cbn; by try rewrite CompOpp_involutive.
Qed.

Lemma geb_leb (x y : float) : geb x y = (y <=? x)%float.
Proof.
  unfold geb.
  rewrite FloatAxioms.leb_spec, FloatAxioms.compare_spec, (SFcompare_swap (Prim2SF y)).
  unfold SFleb. destruct (SFcompare (Prim2SF y) (Prim2SF x)) as [[]|]; reflexivity.
Qed.

(** *** Doubles that are integers

    Below 2^53 an integer is a double, and as long as the results stay
    below 2^53 the sum, the difference and the comparison of such
    doubles are exact. *)

Section Doubles.
Local Open Scope Z_scope.

Lemma digits2_log2 p : Zpos (digits2_pos p) = Z.log2 (Zpos p) + 1.
Proof.
  assert (Hs : ∀ q, digits2_pos q = Pos.size q).
  { induction q as [q IH|q IH|]; cbn; by rewrite ?IH. }
  rewrite Hs. destruct p; cbn; lia.
Qed.

Lemma iter_pos_nat {A} (f : A → A) n x :
  SpecFloat.iter_pos f n x = Nat.iter (Pos.to_nat n) f x.
Proof.
  revert x. induction n as [n IH|n IH|]; intros x; cbn [SpecFloat.iter_pos].
  - rewrite !IH, Pos2Nat.inj_xI, Nat.iter_succ_r.
    replace (2 * Pos.to_nat n)%nat with (Pos.to_nat n + Pos.to_nat n)%nat by lia.
    by rewrite Nat.iter_add.
  - rewrite !IH, Pos2Nat.inj_xO.
    replace (2 * Pos.to_nat n)%nat with (Pos.to_nat n + Pos.to_nat n)%nat by lia.
    by rewrite Nat.iter_add.
  - done.
Qed.

(** Shifting out zero bits loses nothing. *)
Lemma shr_1_even z :
  0 < z → shr_1 (Build_shr_record (2 * z) false false) = Build_shr_record z false false.
Proof. intros Hz. destruct z as [|p|p]; try lia. done. Qed.

Lemma iter_shr_1_exact (j : nat) z :
  0 < z →
  Nat.iter j shr_1 (Build_shr_record (z * 2 ^ Z.of_nat j) false false)
  = Build_shr_record z false false.
Proof.
  intros Hz. revert z Hz. induction j as [|j IH]; intros z Hz.
  - cbn. by rewrite Z.mul_1_r.
  - rewrite Nat.iter_succ_r.
    replace (z * 2 ^ Z.of_nat (S j)) with (2 * (z * 2 ^ Z.of_nat j)).
    + rewrite shr_1_even by lia.
      apply IH. done.
    + rewrite Nat2Z.inj_succ, Z.pow_succ_r by lia. lia.
Qed.

Lemma shr_exact z e n :
  0 < z → 0 ≤ n →
  shr (Build_shr_record (z * 2 ^ n) false false) e n
  = (Build_shr_record z false false, e + n).
Proof.
  intros Hz Hn. destruct n as [|p|p]; try lia.
  - cbn. by rewrite Z.mul_1_r, Z.add_0_r.
  - cbn [shr]. rewrite iter_pos_nat.
    rewrite <- (positive_nat_Z p) at 1. by rewrite iter_shr_1_exact.
Qed.

Lemma shl_align_value mx ex ex' :
  ex' ≤ ex →
  shl_align mx ex ex' = (Z.to_pos (Zpos mx * 2 ^ (ex - ex')), ex').
Proof.
  intros He. unfold shl_align.
  destruct (ex' - ex) as [|p|p] eqn:Hd; try lia.
  - assert (ex = ex') as -> by lia. rewrite Z.sub_diag. cbn. f_equal. lia.
  - replace (ex - ex') with (Zpos p) by lia. f_equal.
    apply Pos2Z.inj. change (Pos.iter xO mx p) with (shift_pos p mx).
    rewrite shift_pos_correct, Z.pow_pos_fold, Z2Pos.id; [lia|].
    apply Z.mul_pos_pos; [done|]. by apply Z.pow_pos_nonneg.
Qed.

Lemma Zdigits2_log2 z : 0 < z → Zdigits2 z = Z.log2 z + 1.
Proof. intros Hz. destruct z as [|p|p]; try lia. apply digits2_log2. Qed.

(** Rounding a mantissa of 53 bits followed by zeros is exact. *)
Lemma binary_round_aux_exact s w n e :
  0 < w → Z.log2 w = 52 → 0 ≤ n → -1074 ≤ e + n ≤ 971 →
  binary_round_aux prec emax s (w * 2 ^ n) e loc_Exact = S754_finite s (Z.to_pos w) (e + n).
Proof.
  intros Hw Hl Hn He.
  assert (Hp : 0 < w * 2 ^ n) by (apply Z.mul_pos_pos; [done|by apply Z.pow_pos_nonneg]).
  unfold binary_round_aux, shr_fexp.
  rewrite Zdigits2_log2, Z.log2_mul_pow2, Hl by done.
  assert (Hf : fexp prec emax (n + 52 + 1 + e) - e = n).
  { unfold fexp, emin, prec, emax. lia. }
  rewrite Hf. cbn [shr_record_of_loc]. rewrite shr_exact by done.
  cbn [shr_m loc_of_shr_record round_nearest_even].
  rewrite Zdigits2_log2, Hl by done.
  assert (Hf' : fexp prec emax (52 + 1 + (e + n)) - (e + n) = 0).
  { unfold fexp, emin, prec, emax. lia. }
  rewrite Hf'. cbn [shr shr_record_of_loc shr_m].
  destruct w as [|p|p]; try lia. cbn [Z.to_pos].
  unfold prec, emax. by rewrite Zle_imp_le_bool by lia.
Qed.

Lemma binary_round_exact s z k :
  0 < z < 2 ^ 53 → 0 ≤ k →
  binary_round prec emax s (Z.to_pos (z * 2 ^ k)) (- k) = canon s z.
Proof.
  intros Hz Hk.
  assert (Hp : 0 < z * 2 ^ k) by (apply Z.mul_pos_pos; [lia|by apply Z.pow_pos_nonneg]).
  assert (HL : 0 ≤ Z.log2 z ≤ 52).
  { split; [apply Z.log2_nonneg|]. apply Z.lt_succ_r, Z.log2_lt_pow2; lia. }
  set (L := Z.log2 z) in *.
  assert (Hw : 0 < z * 2 ^ (52 - L)) by (apply Z.mul_pos_pos; [lia|apply Z.pow_pos_nonneg; lia]).
  assert (Hwl : Z.log2 (z * 2 ^ (52 - L)) = 52).
  { rewrite Z.log2_mul_pow2 by lia. fold L. lia. }
  unfold binary_round. rewrite digits2_log2, Z2Pos.id, Z.log2_mul_pow2 by lia. fold L.
  assert (Hf : fexp prec emax (k + L + 1 + - k) = L - 52).
  { unfold fexp, emin, prec, emax. lia. }
  rewrite Hf. unfold canon. fold L.
  destruct (Z_le_gt_dec (L - 52) (- k)) as [Hle | Hgt].
  - rewrite shl_align_value by done. rewrite !Z2Pos.id by lia.
    replace (z * 2 ^ k * 2 ^ (- k - (L - 52))) with (z * 2 ^ (52 - L) * 2 ^ 0).
    + rewrite binary_round_aux_exact by lia. f_equal. lia.
    + rewrite Z.pow_0_r, Z.mul_1_r, <- Z.mul_assoc, <- Z.pow_add_r by lia.
      f_equal. f_equal. lia.
  - unfold shl_align. destruct (L - 52 - - k) as [|p|p] eqn:Hd; try lia.
    rewrite Z2Pos.id by done.
    replace (z * 2 ^ k) with (z * 2 ^ (52 - L) * 2 ^ (k - (52 - L))).
    + rewrite binary_round_aux_exact by lia. f_equal. lia.
    + rewrite <- Z.mul_assoc, <- Z.pow_add_r by lia. f_equal. f_equal. lia.
Qed.

Lemma Z2SF_signed s z : 0 < z → Z2SF (signed s z) = canon s z.
Proof.
  intros Hz. destruct z as [|p|p]; try lia.
  destruct s; cbn; done.
Qed.

Lemma Z2SF_cases z : z = 0 ∨ ∃ s a, 0 < a ∧ z = signed s a.
Proof.
  destruct z as [|p|p]; [by left|right..].
  - exists false, (Zpos p). split; [lia|done].
  - exists true, (Zpos p). split; [lia|done].
Qed.

Lemma normalize_exact z k :
  Z.abs z < 2 ^ 53 → 0 ≤ k →
  binary_normalize prec emax (z * 2 ^ k) (- k) false = Z2SF z.
Proof.
  intros Hz Hk.
  assert (H2 : 0 < 2 ^ k) by (by apply Z.pow_pos_nonneg).
  destruct z as [|p|p].
  - done.
  - assert (Hp : 0 < Zpos p * 2 ^ k) by (by apply Z.mul_pos_pos).
    destruct (Zpos p * 2 ^ k) as [|q|q] eqn:Hq; try lia.
    cbn [binary_normalize Z2SF]. rewrite <- (binary_round_exact false (Zpos p) k) by lia.
    by rewrite Hq.
  - assert (Hp : 0 < Zpos p * 2 ^ k) by (by apply Z.mul_pos_pos).
    assert (Hn : Zneg p * 2 ^ k = - (Zpos p * 2 ^ k)) by lia.
    rewrite Hn. destruct (Zpos p * 2 ^ k) as [|q|q] eqn:Hq; try lia.
    change (- Z.pos q) with (Z.neg q).
    change (Z2SF (Z.neg p)) with (canon true (Z.pos p)).
    cbn [binary_normalize]. rewrite <- (binary_round_exact true (Zpos p) k) by lia.
    by rewrite Hq.
Qed.

Lemma canon_valid s z : 0 < z < 2 ^ 53 → valid_binary (canon s z) = true.
Proof.
  intros Hz.
  assert (HL : 0 ≤ Z.log2 z ≤ 52).
  { split; [apply Z.log2_nonneg|]. apply Z.lt_succ_r, Z.log2_lt_pow2; lia. }
  assert (Hw : 0 < z * 2 ^ (52 - Z.log2 z)).
  { apply Z.mul_pos_pos; [lia|apply Z.pow_pos_nonneg; lia]. }
  unfold canon, valid_binary, SpecFloat.valid_binary, bounded, canonical_mantissa.
  rewrite digits2_log2, Z2Pos.id, Z.log2_mul_pow2 by lia.
  apply andb_true_intro. split.
  - apply Z.eqb_eq. unfold fexp, emin, prec, emax. lia.
  - apply Z.leb_le. unfold prec, emax. lia.
Qed.

Lemma Z2SF_valid z : Z.abs z < 2 ^ 53 → valid_binary (Z2SF z) = true.
Proof.
  intros Hz. destruct z as [|p|p]; [done|apply canon_valid; lia..].
Qed.

Lemma Prim2SF_double z : Z.abs z < 2 ^ 53 → Prim2SF (double z) = Z2SF z.
Proof.
  intros Hz. unfold double.
  rewrite <- (normalize_exact z 0), Z.pow_0_r, Z.mul_1_r by lia. cbn [Z.opp].
  apply Prim2SF_SF2Prim.
  rewrite <- (Z.mul_1_r z), <- (Z.pow_0_r 2) at 1.
  change 0 with (- 0) at 2. rewrite normalize_exact by lia.
  by apply Z2SF_valid.
Qed.

(** The mantissa of [canon s z], aligned on a smaller exponent. *)
Lemma canon_aligned s z ez :
  0 < z < 2 ^ 53 → ez ≤ Z.log2 z - 52 → ez ≤ 0 →
  cond_Zopp s (Zpos (shl_align (Z.to_pos (z * 2 ^ (52 - Z.log2 z))) (Z.log2 z - 52) ez).1)
  = signed s z * 2 ^ (- ez).
Proof.
  intros Hz He He0.
  assert (HL : 0 ≤ Z.log2 z ≤ 52).
  { split; [apply Z.log2_nonneg|]. apply Z.lt_succ_r, Z.log2_lt_pow2; lia. }
  assert (Hw : 0 < z * 2 ^ (52 - Z.log2 z)).
  { apply Z.mul_pos_pos; [lia|apply Z.pow_pos_nonneg; lia]. }
  rewrite shl_align_value by done. cbn [fst].
  rewrite (Z2Pos.id (z * 2 ^ (52 - Z.log2 z))) by done.
  assert (Hv : z * 2 ^ (52 - Z.log2 z) * 2 ^ (Z.log2 z - 52 - ez) = z * 2 ^ (- ez)).
  { rewrite <- Z.mul_assoc, <- Z.pow_add_r by lia. do 2 f_equal. lia. }
  rewrite Hv. rewrite Z2Pos.id by (apply Z.mul_pos_pos; [lia|apply Z.pow_pos_nonneg; lia]).
  unfold cond_Zopp, signed. destruct s; lia.
Qed.

Lemma SFadd_canon sa a sb b :
  0 < a < 2 ^ 53 → 0 < b < 2 ^ 53 → Z.abs (signed sa a + signed sb b) < 2 ^ 53 →
  SFadd prec emax (canon sa a) (canon sb b) = Z2SF (signed sa a + signed sb b).
Proof.
  intros Ha Hb Hab.
  assert (HLa : 0 ≤ Z.log2 a ≤ 52).
  { split; [apply Z.log2_nonneg|]. apply Z.lt_succ_r, Z.log2_lt_pow2; lia. }
  assert (HLb : 0 ≤ Z.log2 b ≤ 52).
  { split; [apply Z.log2_nonneg|]. apply Z.lt_succ_r, Z.log2_lt_pow2; lia. }
  unfold canon. cbn [SFadd].
  set (ez := Z.min (Z.log2 a - 52) (Z.log2 b - 52)).
  rewrite !canon_aligned by lia.
  rewrite <- Z.mul_add_distr_r.
  rewrite <- (Z.opp_involutive ez) at 2.
  apply normalize_exact; lia.
Qed.

Lemma SFsub_canon sa a sb b :
  0 < a < 2 ^ 53 → 0 < b < 2 ^ 53 → Z.abs (signed sa a - signed sb b) < 2 ^ 53 →
  SFsub prec emax (canon sa a) (canon sb b) = Z2SF (signed sa a - signed sb b).
Proof.
  intros Ha Hb Hab.
  assert (HLa : 0 ≤ Z.log2 a ≤ 52).
  { split; [apply Z.log2_nonneg|]. apply Z.lt_succ_r, Z.log2_lt_pow2; lia. }
  assert (HLb : 0 ≤ Z.log2 b ≤ 52).
  { split; [apply Z.log2_nonneg|]. apply Z.lt_succ_r, Z.log2_lt_pow2; lia. }
  unfold canon. cbn [SFsub].
  set (ez := Z.min (Z.log2 a - 52) (Z.log2 b - 52)).
  rewrite !canon_aligned by lia.
  rewrite <- Z.mul_sub_distr_r.
  rewrite <- (Z.opp_involutive ez) at 2.
  apply normalize_exact; lia.
Qed.

Lemma signed_opp s z : - signed s z = signed (negb s) z.
Proof. destruct s; cbn; lia. Qed.

Lemma SFadd_exact a b :
  Z.abs a < 2 ^ 53 → Z.abs b < 2 ^ 53 → Z.abs (a + b) < 2 ^ 53 →
  SFadd prec emax (Z2SF a) (Z2SF b) = Z2SF (a + b).
Proof.
  intros Ha Hb Hab.
  destruct (Z2SF_cases a) as [-> | (sa & a' & Ha' & ->)],
           (Z2SF_cases b) as [-> | (sb & b' & Hb' & ->)].
  - done.
  - rewrite Z.add_0_l, !Z2SF_signed by done. done.
  - rewrite Z.add_0_r, !Z2SF_signed by done. done.
  - rewrite !Z2SF_signed by done. apply SFadd_canon; [destruct sa; cbn in *; lia|destruct sb; cbn in *; lia|done].
Qed.

Lemma SFsub_exact a b :
  Z.abs a < 2 ^ 53 → Z.abs b < 2 ^ 53 → Z.abs (a - b) < 2 ^ 53 →
  SFsub prec emax (Z2SF a) (Z2SF b) = Z2SF (a - b).
Proof.
  intros Ha Hb Hab.
  destruct (Z2SF_cases a) as [-> | (sa & a' & Ha' & ->)],
           (Z2SF_cases b) as [-> | (sb & b' & Hb' & ->)].
  - done.
  - rewrite Z.sub_0_l, signed_opp, !Z2SF_signed by done. done.
  - rewrite Z.sub_0_r, !Z2SF_signed by done. done.
  - rewrite !Z2SF_signed by done. apply SFsub_canon; [destruct sa; cbn in *; lia|destruct sb; cbn in *; lia|done].
Qed.

(** Among positive integers below 2^53, the order of the exponents and
    then of the mantissas is the order of the integers. *)
Lemma canon_order a b :
  0 < a < 2 ^ 53 → 0 < b < 2 ^ 53 →
  match Z.log2 a - 52 ?= Z.log2 b - 52 with
  | Lt => Lt
  | Gt => Gt
  | Eq => Pos.compare_cont Eq (Z.to_pos (a * 2 ^ (52 - Z.log2 a)))
            (Z.to_pos (b * 2 ^ (52 - Z.log2 b)))
  end = (a ?= b).
Proof.
  intros Ha Hb.
  assert (HLa : 0 ≤ Z.log2 a ≤ 52).
  { split; [apply Z.log2_nonneg|]. apply Z.lt_succ_r, Z.log2_lt_pow2; lia. }
  assert (HLb : 0 ≤ Z.log2 b ≤ 52).
  { split; [apply Z.log2_nonneg|]. apply Z.lt_succ_r, Z.log2_lt_pow2; lia. }
  destruct (Z.compare_spec (Z.log2 a - 52) (Z.log2 b - 52)) as [He | He | He].
  - assert (Hl : Z.log2 a = Z.log2 b) by lia. rewrite Hl.
    assert (H2 : 0 < 2 ^ (52 - Z.log2 b)) by (apply Z.pow_pos_nonneg; lia).
    change (Pos.compare_cont Eq ?p ?q) with (Zpos p ?= Zpos q).
    rewrite !Z2Pos.id by (apply Z.mul_pos_pos; lia).
    destruct (Z.compare_spec a b) as [-> | Hab | Hab].
    + apply Z.compare_refl.
    + apply Z.compare_lt_iff. nia.
    + apply Z.compare_gt_iff. nia.
  - symmetry. apply Z.compare_lt_iff, Z.log2_lt_cancel. lia.
  - symmetry. apply Z.compare_gt_iff, Z.log2_lt_cancel. lia.
Qed.

Lemma SFcompare_exact a b :
  Z.abs a < 2 ^ 53 → Z.abs b < 2 ^ 53 → SFcompare (Z2SF a) (Z2SF b) = Some (a ?= b).
Proof.
  intros Ha Hb.
  destruct a as [|p|p], b as [|q|q]; try done; unfold Z2SF, canon; cbn [SFcompare].
  - f_equal. apply canon_order; lia.
  - change (- Z.neg p) with (Z.pos p). change (- Z.neg q) with (Z.pos q).
    change (Z.neg p ?= Z.neg q) with (CompOpp (Z.pos p ?= Z.pos q)).
    rewrite <- (canon_order (Z.pos p) (Z.pos q)) by lia.
    by destruct (Z.log2 (Z.pos p) - 52 ?= Z.log2 (Z.pos q) - 52).
Qed.

(** The comparison, the sum and the difference of the doubles of two
    integers are those of the integers. *)
Lemma geb_double a b :
  Z.abs a < 2 ^ 53 → Z.abs b < 2 ^ 53 →
  ∀ x y, Prim2SF x = Z2SF a → Prim2SF y = Z2SF b → geb x y = (b <=? a).
Proof.
  intros Ha Hb x y Hx Hy. unfold geb.
  rewrite FloatAxioms.compare_spec, Hx, Hy, SFcompare_exact by done.
  unfold Z.leb. rewrite (Z.compare_antisym a b).
  by destruct (a ?= b).
Qed.

Lemma add_double a b :
  Z.abs a < 2 ^ 53 → Z.abs b < 2 ^ 53 → Z.abs (a + b) < 2 ^ 53 →
  Prim2SF (double a + double b) = Z2SF (a + b).
Proof.
  intros Ha Hb Hab. rewrite add_spec, !Prim2SF_double by done. by apply SFadd_exact.
Qed.

Lemma sub_double a b :
  Z.abs a < 2 ^ 53 → Z.abs b < 2 ^ 53 → Z.abs (a - b) < 2 ^ 53 →
  Prim2SF (double a - double b) = Z2SF (a - b).
Proof.
  intros Ha Hb Hab. rewrite sub_spec, !Prim2SF_double by done. by apply SFsub_exact.
Qed.
End Doubles.

(** The doubles of some integers: the numbers of the scenario, a
    negative one, and one above 2^53, which is rounded. *)
Example double_literals :
  double 800 = 800%float ∧ double 180 = 180%float ∧ double 179 = 179%float ∧
  double 1000 = 1000%float ∧ double 20 = 20%float ∧ double (-3) = (-3)%float ∧
  double 9007199254740993 = 9007199254740992%float.
Proof. repeat split. Qed.

(** C7.  [isCloseToBottom] holds exactly when the offset plus the viewport
    height is at least the content height minus 20.  The measurements
    are doubles, and the sum, the difference and the comparison are those
    of doubles (so it is false when a side is NaN); when the
    measurements are integers below 2^52 in absolute value, these are
    the sum, the difference and the comparison of the integers.  With a
    viewport of 800 and a content of 1000 it holds at offset 180 and not
    at 179.  [handleScroll] adds one to [page] exactly when it holds,
    [hasMore] is true and [loading] is false, and leaves [page] alone
    otherwise. *)
Theorem near_bottom_threshold w ev :
  let s' := screen (run (handleScroll (screen w) ev) w) in
  isCloseToBottom ev
    = geb (contentOffset_y ev + layoutMeasurement_height ev) (contentSize_height ev - 20) ∧
  (isCloseToBottom ev = true
   ↔ (contentSize_height ev - 20
        <=? contentOffset_y ev + layoutMeasurement_height ev)%float = true) ∧
  (∀ viewportHeight offset contentHeight : Z,
     (Z.abs viewportHeight < 2 ^ 52)%Z → (Z.abs offset < 2 ^ 52)%Z →
     (Z.abs contentHeight < 2 ^ 52)%Z →
     isCloseToBottom (mkScroll (double viewportHeight) (double offset) (double contentHeight))
       = true
     ↔ (offset + viewportHeight >= contentHeight - 20)%Z) ∧
  isCloseToBottom (mkScroll 800 180 1000) = true ∧
  isCloseToBottom (mkScroll 800 179 1000) = false ∧
  page s' = (if isCloseToBottom ev && hasMore (screen w) && negb (loading (screen w))
             then page (screen w) + 1 else page (screen w))%Z ∧
  (page s' = (page (screen w) + 1)%Z
   ↔ isCloseToBottom ev = true ∧ hasMore (screen w) = true ∧ loading (screen w) = false).
Proof.
  intros s'.
  assert (Hg : isCloseToBottom ev
               = geb (contentOffset_y ev + layoutMeasurement_height ev)
                     (contentSize_height ev - 20)).
  { unfold isCloseToBottom. by rewrite float_add_comm. }
  split; [done|]. split; [by rewrite Hg, geb_leb|].
  split.
  { intros l o c Hl Ho Hc. unfold isCloseToBottom. cbn [layoutMeasurement_height
      contentOffset_y contentSize_height].
    rewrite (geb_double (l + o) (c - 20)); [|lia|lia| |].
    - rewrite Z.leb_le. lia.
    - apply add_double; lia.
    - change 20%float with (double 20). apply sub_double; lia. }
  split; [done|split; [done|]].
  assert (Hp : page s' = (if isCloseToBottom ev && hasMore (screen w)
                               && negb (loading (screen w))
                          then page (screen w) + 1 else page (screen w))%Z).
  { unfold s', handleScroll.
    by destruct (isCloseToBottom ev && hasMore (screen w) && negb (loading (screen w))). }
  split; [done|]. rewrite Hp.
  destruct (isCloseToBottom ev), (hasMore (screen w)), (loading (screen w)); cbn;
    split; try lia; try tauto; intros (? & ? & ?); congruence.
Qed.

(** ** The bookmarks *)

Lemma save_stores w article l :
  read_saved (storage w !! KEY) = Some (JsArray l) →
  screen (save article w) = screen w ∧
  storage (save article w) = <[KEY := JSON_stringify (l ++ [article])]> (storage w).
Proof.
  intros Hr. unfold save.
  destruct (save_round w article Resolve Resolve) as (_ & _ & _ & _ & Hrest).
  rewrite Hr in Hrest. by destruct Hrest as (_ & _ & _ & _ & ->).
Qed.

Lemma read_saved_insert `{!Lawful} l (st : gmap string string) :
  read_saved (<[KEY := JSON_stringify l]> st !! KEY) = Some (JsArray l).
Proof.
  rewrite lookup_insert_eq. cbn. rewrite bool_decide_eq_false_2 by apply stringify_truthy.
  apply parse_stringify.
Qed.

Lemma loadAll_reads w v :
  read_saved (storage w !! KEY) = Some v → savedArticles (screen (loadAll w)) = v.
Proof. intros Hr. unfold loadAll. rewrite load_round. cbn. by rewrite Hr. Qed.

(** On a parse error [getSavedArticles] logs and leaves the state as it
    is, whatever the bookmarks in memory are. *)
Lemma loadAll_parse_error w text :
  storage w !! KEY = Some text → text ≠ "" → JSON_parse text = None →
  screen (loadAll w) = screen w ∧
  log (loadAll w) = log w ++ [StorageGet KEY; ConsoleError "Error fetching saved articles"].
Proof.
  intros Ht Hne Hp. unfold loadAll. rewrite load_round. cbn [perform fst].
  rewrite Ht. cbn. rewrite bool_decide_eq_false_2, Hp by done. cbn.
  by rewrite <- app_assoc.
Qed.

(** C4.  When the storage call of [getSavedArticles] resolves with
    nothing stored under the key, the bookmarks in memory become the
    empty list and nothing is logged.  When the stored text is not JSON,
    the error is logged and the bookmarks in memory stay what they were:
    the [catch] (lines 84-86) does not reset them, so they are empty only
    if they were empty before. *)
Theorem loadAll_empty_or_kept w :
  (storage w !! KEY = None →
     savedArticles (screen (loadAll w)) = JsArray [] ∧
     log (loadAll w) = log w ++ [StorageGet KEY]) ∧
  (∀ text, storage w !! KEY = Some text → text ≠ "" → JSON_parse text = None →
     savedArticles (screen (loadAll w)) = savedArticles (screen w) ∧
     log (loadAll w)
     = log w ++ [StorageGet KEY; ConsoleError "Error fetching saved articles"]).
Proof.
  split.
  - intros Hn. unfold loadAll. rewrite load_round. cbn [perform fst]. by rewrite Hn.
  - intros text Ht Hne Hp.
    destruct (loadAll_parse_error w text Ht Hne Hp) as [Hs Hl]. by rewrite Hs.
Qed.

(** C6.  Whatever list of bookmarks the storage holds (nothing stored
    being the empty list), saving an article and then reading the
    bookmarks gives that list with the article added at the end, which
    is its last element; saving the article twice adds it twice. *)
Theorem save_then_loadAll `{!Lawful} w article l :
  read_saved (storage w !! KEY) = Some (JsArray l) →
  savedArticles (screen (loadAll (save article w))) = JsArray (l ++ [article]) ∧
  last (l ++ [article]) = Some article ∧
  savedArticles (screen (loadAll (save article (save article w))))
  = JsArray (l ++ [article; article]).
Proof.
  intros Hr.
  destruct (save_stores w article l Hr) as [_ Hst].
  assert (Hr1 : read_saved (storage (save article w) !! KEY) = Some (JsArray (l ++ [article])))
    by (rewrite Hst; apply read_saved_insert).
  destruct (save_stores _ article _ Hr1) as [_ Hst2].
  split; [by apply loadAll_reads|]. split; [apply last_snoc|].
  apply loadAll_reads. rewrite Hst2, read_saved_insert.
  by rewrite <- app_assoc.
Qed.

(** C10.  In a call of [saveArticle], when the read of the stored text
    fails, or the text is not JSON (or is JSON but not an array), nothing
    is written and no confirmation is shown: the error is logged and the
    storage is as it was.  Otherwise the write is issued, and the
    confirmation is shown when the write has resolved, and only then; a
    failed write is logged and leaves the storage as it was. *)
Theorem save_confirms_after_write w article a1 a2 :
  let w1 := run (saveArticle article) w in
  let w2 := settle_last a1 w1 in
  let w3 := settle_last a2 w2 in
  log w1 = log w ++ [StorageGet KEY] ∧ storage w1 = storage w ∧
  (a1 ≠ Resolve ∨ read_saved (storage w !! KEY) = None
   ∨ read_saved (storage w !! KEY) = Some JsOther →
     storage w2 = storage w ∧ pending w2 = pending w ∧
     log w2 = log w1 ++ [ConsoleError "Error saving article"]) ∧
  (∀ l, a1 = Resolve → read_saved (storage w !! KEY) = Some (JsArray l) →
     let text := JSON_stringify (l ++ [article]) in
     storage w2 = storage w ∧ log w2 = log w1 ++ [StorageSet KEY text] ∧
     (a2 = Resolve →
        storage w3 = <[KEY := text]> (storage w) ∧ log w3 = log w2 ++ [Alert "Saved!"]) ∧
     (a2 ≠ Resolve →
        storage w3 = storage w ∧
        log w3 = log w2 ++ [ConsoleError "Error saving article"])).
Proof.
  intros w1 w2 w3.
  destruct (save_round w article a1 a2) as (_ & Hst & Hlog & _ & Hrest).
  fold w1 w2 in Hst, Hlog, Hrest. fold w3 in Hrest.
  split; [done|]. split; [done|]. split.
  - intros Hbad.
    assert (Hw2 : w2 = save_failed (emit (StorageGet KEY) w)).
    { destruct Hbad as [Ha | [Hr | Hr]].
      - by destruct a1, (read_saved (storage w !! KEY)) as [[|]|].
      - rewrite Hr in Hrest. by destruct a1.
      - rewrite Hr in Hrest. by destruct a1. }
    by rewrite Hw2, Hlog.
  - intros l -> Hr text. rewrite Hr in Hrest.
    destruct Hrest as (_ & _ & Hst2 & Hlog2 & Hw3). fold text in Hlog2, Hw3.
    split; [done|]. split; [by rewrite Hlog2, Hlog|].
    split.
    + intros ->. by rewrite Hw3, Hlog2.
    + intros Ha. rewrite Hlog2. by destruct a2; rewrite Hw3.
Qed.

(** C8.  In a session of the mounted screen that shows the feed, a press
    on the toggle link shows the bookmarks, and a second press, before or
    after the read of the bookmarks has settled, shows the feed again:
    the article list, the page number, [hasMore] and [loading] are as
    before the first press.  The second press issues no call and leaves
    the storage, the pending promises and the outputs alone.  When
    nothing is stored under the key, the list shown after the first press
    is empty, before and after the read has settled. *)
Theorem toggle_keeps_feed st acts a :
  let w := session (mount st) acts in
  viewingSaved (screen w) = false →
  let w1 := step w PressToggle in
  let w1' := settle_last a w1 in
  viewingSaved (screen w1) = true ∧ viewingSaved (screen w1') = true ∧
  (∀ ws, ws = w1 ∨ ws = w1' →
     let w2 := step ws PressToggle in
     feed (screen w2) = feed (screen w) ∧ loading (screen w2) = loading (screen w) ∧
     viewingSaved (screen w2) = false ∧ rendered (screen w2) = Some (news (screen w)) ∧
     storage w2 = storage ws ∧ pending w2 = pending ws ∧ log w2 = log ws) ∧
  (storage w !! KEY = None →
     rendered (screen w1) = Some [] ∧ rendered (screen w1') = Some []).
Proof.
  intros w Hv w1 w1'.
  assert (Hk : nothing_kept w).
  { apply session_nothing_kept; [apply mount_tasks_ok|].
    intros _. unfold mount.
    by destruct (fetchNews_starts initial (page initial)) as (k & _ & ->). }
  destruct getSavedArticles_starts as (k & Hload & Hget).
  assert (H1 : w1 = run (Await (getItem KEY) k) (update (with_viewingSaved true) w)).
  { unfold w1, step, handle, toggleView. rewrite Hv, Hget. by rewrite rerender_same. }
  assert (H1' : w1' = load_done (perform (getItem KEY) a (storage w)).1
                        (emit (StorageGet KEY) (update (with_viewingSaved true) w))).
  { unfold w1'. rewrite H1, settle_last_await, Hload.
    rewrite rerender_same; [by destruct a|].
    destruct (perform _ a _).1 as [saved|]; cbn; [by destruct (read_saved saved)|done]. }
  assert (Hv1' : viewingSaved (screen w1') = true).
  { rewrite H1'. destruct (perform _ a _).1 as [saved|]; cbn;
      [by destruct (read_saved saved)|done]. }
  split; [by rewrite H1|]. split; [done|]. split.
  - intros ws Hws w2.
    assert (Hws' : viewingSaved (screen ws) = true ∧ feed (screen ws) = feed (screen w)
                   ∧ loading (screen ws) = loading (screen w)).
    { destruct Hws as [-> | ->]; [by rewrite H1|]. split; [done|]. rewrite H1'.
      destruct (perform _ a _).1 as [saved|]; cbn;
        [by destruct (read_saved saved)|done]. }
    destruct Hws' as (Hvs & Hfeed & Hload').
    assert (H2 : w2 = update (with_viewingSaved false) ws).
    { unfold w2, step, handle, toggleView. rewrite Hvs. by rewrite rerender_same. }
    rewrite H2. cbn. unfold feed in *. cbn.
    injection Hfeed as Hn Hp Hm. rewrite Hn, Hp, Hm, Hload'. done.
  - intros Hnone. specialize (Hk Hnone).
    split; [rewrite H1; unfold rendered; cbn; by rewrite Hk|].
    unfold rendered. rewrite Hv1', H1'. cbn [perform fst].
    destruct a; cbn; rewrite ?Hnone; cbn; by rewrite ?Hk.
Qed.
End Proofs.

(** * Further results *)

Section More.
Context `{Platform}.

Lemma settle_handled i a w : tasks_ok w → handled w (Settle i a) (settle i a w).
Proof.
  intros Hw. unfold settle.
  destruct (pending w !! i) as [[X c k]|] eqn:Hi; [|by constructor].
  assert (Hk : task_ok (Suspended c k)) by (eapply Forall_lookup_1; eauto).
  revert k Hk Hi. destruct c as [u|r|key|key value]; intros k Hk Hi; cbn in Hk.
  - destruct Hk as [Hrej Hres].
    destruct a as [| |r]; cbn; rewrite ?Hrej;
      try (by eapply hd_fetch_failed; eauto).
    destruct (Hres r) as (k2 & Hk2 & ->). by eapply hd_fetch_responded; eauto.
  - rewrite (surjective_pairing (perform (json r) a (storage w))).
    rewrite Hk.
    replace (perform (json r) a (storage w)).2 with (storage w)
      by (by destruct a, r as [[?|]]).
    by eapply (hd_fetch_done w i a r k).
  - destruct Hk as [-> [Hk | [art Hsave]]].
    + rewrite (surjective_pairing (perform (getItem KEY) a (storage w))).
      rewrite Hk.
      replace (perform (getItem KEY) a (storage w)).2 with (storage w) by (by destruct a).
      by eapply (hd_load_done w i a k).
    + pose proof Hsave as [Hrej Hres].
      destruct a; cbn; rewrite ?Hrej;
        try (by eapply hd_save_failed; eauto).
      specialize (Hres (storage w !! KEY)).
      destruct (read_saved (storage w !! KEY)) as [[l|]|] eqn:Hr;
        rewrite ?Hres; try (eapply hd_save_failed; eauto; right; congruence).
      destruct Hres as (k2 & Hk2 & ->). by eapply hd_save_write; eauto.
  - destruct Hk as (-> & [l ->] & Hk).
    destruct a; cbn; rewrite Hk; try (by eapply hd_write_failed; eauto).
    by eapply hd_written.
Qed.

Lemma handle_handled a w : tasks_ok w → handled w a (handle a w).
Proof.
  intros Hw. destruct a as [ev| |i|i|i a]; cbn [handle].
  - unfold handleScroll.
    destruct (isCloseToBottom ev && hasMore (screen w) && negb (loading (screen w))) eqn:Hc.
    + apply andb_prop in Hc as [Hc Hl]. apply andb_prop in Hc as [Hc Hm].
      apply hd_scroll_page; [done..|by destruct (loading (screen w))].
    + by apply hd_scroll_stay.
  - unfold toggleView. destruct (viewingSaved (screen w)) eqn:Hv.
    + by apply hd_leave_saved.
    + destruct getSavedArticles_starts as (k & Hk & ->). by apply hd_enter_saved.
  - destruct (rendered (screen w) ≫= _) eqn:Hr; [by apply hd_read | by apply hd_read_none].
  - destruct (viewingSaved (screen w)) eqn:Hv; [apply hd_save_none; auto|].
    destruct (news (screen w) !! i) as [item|] eqn:Hi; [|apply hd_save_none; auto].
    destruct (saveArticle_starts item) as (k & Hk & ->). by eapply hd_save.
  - by apply settle_handled.
Qed.

(** The effect after a render: nothing, or the start of a fetch of the
    current page. *)
Lemma rerender_cases before w :
  rerender before w = w ∨
  (page (screen w) ≠ page before ∧ loading (screen w) = false ∧ hasMore (screen w) = true ∧
   ∃ k, fetch_ok k ∧
     rerender before w
     = run (Await (fetch (top_headlines (page (screen w)))) k) (update (with_loading true) w)).
Proof.
  unfold rerender. case_decide; [by left|].
  destruct (loading (screen w)) eqn:Hl; [left; by rewrite fetchNews_guarded by auto|].
  destruct (hasMore (screen w)) eqn:Hm; [|left; by rewrite fetchNews_guarded by auto].
  destruct (fetchNews_starts (screen w) (page (screen w)) Hl Hm) as (k & Hk & ->).
  right. eauto 10.
Qed.

Ltac handled_cases Hh :=
  destruct Hh as [ ev Hc | ev Hc Hm Hl | Hv | k Hv Hk | i Hr | i item Hr | i Hi
                 | i item k Hv Hi Hk | i a Hi | i a u k Hi Ha | i r u k k2 Hi Hk
                 | i a r k Hi | i a k Hi Hk | i a item k Hi Hk Ha
                 | i item l k k2 Hi Hk Hr Hk2 | i a l k Hi Ha | i l k Hi ].

Lemma handled_page w a w' :
  handled w a w' →
  page (screen w') = page (screen w) ∨
  (∃ ev, a = Scroll ev ∧ isCloseToBottom ev = true ∧ hasMore (screen w) = true
         ∧ loading (screen w) = false
         ∧ w' = update (with_page (λ prevPage, prevPage + 1)%Z) w).
Proof.
  intros Hh. handled_cases Hh; try (by left); try (right; by eauto 10).
  - left. by destruct (perform (json r) a (storage w)).1 as [[|[[|]|]]|].
  - left. destruct (perform (getItem KEY) a (storage w)).1 as [saved|]; cbn;
      [by destruct (read_saved saved)|done].
Qed.

(** One step: either the handler alone, the page staying, or a scroll that
    advances the page, followed by the fetch of the new page. *)
Lemma step_cases a w :
  tasks_ok w →
  (step w a = handle a w ∧ page (screen (handle a w)) = page (screen w)) ∨
  (∃ ev k, a = Scroll ev ∧ isCloseToBottom ev = true ∧ hasMore (screen w) = true
           ∧ loading (screen w) = false ∧ fetch_ok k
           ∧ handle a w = update (with_page (λ prevPage, prevPage + 1)%Z) w
           ∧ step w a
             = run (Await (fetch (top_headlines (page (screen w) + 1))) k)
                 (update (with_loading true)
                    (update (with_page (λ prevPage, prevPage + 1)%Z) w))).
Proof.
  intros Hw. unfold step.
  destruct (handled_page _ _ _ (handle_handled a w Hw))
    as [Hp | (ev & -> & Hc & Hm & Hl & Heq)].
  - left. by rewrite rerender_same.
  - right. rewrite Heq.
    destruct (rerender_cases (screen w) (update (with_page (λ prevPage, prevPage + 1)%Z) w))
      as [Hsame | (_ & _ & _ & k & Hk & ->)].
    + unfold rerender in Hsame. cbn in Hsame. case_decide; [lia|].
      destruct (fetchNews_starts (with_page (λ prevPage, prevPage + 1)%Z (screen w))
                  (page (screen w) + 1) Hl Hm) as (k & Hk & Hf).
      exfalso. rewrite Hf in Hsame. cbn in Hsame.
      apply (f_equal (λ x, length (pending x))) in Hsame. cbn in Hsame.
      rewrite length_app in Hsame. cbn in Hsame. lia.
    + exists ev, k. done.
Qed.

(** *** One fetch at a time *)

Lemma filter_fetching_lookup (l : list Task) i t :
  l !! i = Some t →
  length (filter (λ t, fetching t) l)
  = (if fetching t then 1 else 0) + length (filter (λ t, fetching t) (delete i l)).
Proof.
  intros Hi.
  rewrite <- (take_drop_middle _ _ _ Hi) at 1. rewrite delete_take_drop.
  rewrite !filter_app, filter_cons, !length_app.
  destruct (fetching t); cbn; case_decide; try done; cbn; lia.
Qed.

Lemma filter_fetching_snoc (l : list Task) t :
  length (filter (λ t, fetching t) (l ++ [t]))
  = length (filter (λ t, fetching t) l) + (if fetching t then 1 else 0).
Proof.
  rewrite filter_app, length_app, filter_cons, filter_nil.
  destruct (fetching t); cbn; case_decide; try done; cbn; lia.
Qed.

(** Unfolds the closed forms down to the fields of the world. *)
Ltac world_fields :=
  cbn [run pending screen storage log drop_task update emit store
       fetch_failed fetch_done load_done write_done save_failed load_failed
       news loading page hasMore savedArticles viewingSaved
       with_news with_loading with_page with_hasMore with_savedArticles with_viewingSaved
       Nat.ltb Nat.leb length].

Lemma step_one_at_a_time w a : tasks_ok w → one_at_a_time w → one_at_a_time (step w a).
Proof.
  unfold one_at_a_time, in_flight. intros Hw Hinv.
  destruct (step_cases a w Hw) as [[-> _] | (ev & k & -> & _ & _ & Hl & _ & _ & ->)].
  - pose proof (handle_handled a w Hw) as Hh.
    remember (handle a w) as w' eqn:Hw'. clear Hw'.
    handled_cases Hh; try done;
      try (pose proof (filter_fetching_lookup _ _ _ Hi) as Hd; cbn [fetching] in Hd);
      try (destruct (perform (json r) a (storage w)).1 as [[|[[|]|]]|]);
      try (destruct (perform (getItem KEY) a (storage w)).1 as [saved|];
           [cbn [load_done]; destruct (read_saved saved)|]);
      world_fields; rewrite ?filter_fetching_snoc; cbn [fetching];
      destruct (loading (screen w)); lia.
  - world_fields. rewrite filter_fetching_snoc. cbn [fetching]. rewrite Hinv, Hl. done.
Qed.

Lemma session_invariant (I : World → Prop) :
  (∀ w a, tasks_ok w → I w → I (step w a)) →
  ∀ acts w, tasks_ok w → I w → I (session w acts).
Proof.
  intros Hstep acts. induction acts as [|a acts IH]; intros w Hw Hi; [done|].
  rewrite session_cons. apply IH; [by apply step_tasks_ok | by apply Hstep].
Qed.

Lemma mount_world st :
  ∃ k, fetch_ok k ∧
    mount st = mkWorld (with_loading true initial) st
                 [Suspended (fetch (top_headlines 1)) k] [HttpGet (top_headlines 1)].
Proof.
  unfold mount.
  destruct (fetchNews_starts initial (page initial)) as (k & Hk & ->); [done..|].
  by exists k.
Qed.

(** X1.  In every session of the mounted screen at most one call of
    [fetchNews] is under way, and [loading] is true exactly while one is:
    the number of pending requests and body reads is 1 when [loading] is
    true and 0 when it is false. *)
Theorem one_fetch_at_a_time st acts :
  let w := session (mount st) acts in
  in_flight w = if loading (screen w) then 1 else 0.
Proof.
  apply (session_invariant one_at_a_time).
  - intros w a. apply step_one_at_a_time.
  - apply mount_tasks_ok.
  - destruct (mount_world st) as (k & _ & ->). done.
Qed.

(** *** The pages asked for *)

Lemma fetched_emit o w : (∀ u, o ≠ HttpGet u) → fetched (emit o w) = fetched w.
Proof.
  intros Ho. unfold fetched. cbn. rewrite omap_app. cbn.
  destruct o; rewrite ?app_nil_r; try done. by destruct (Ho u).
Qed.

Lemma handled_fetched w a w' : handled w a w' → fetched w' = fetched w.
Proof.
  intros Hh. handled_cases Hh; try done;
    try (by apply (fetched_emit _ (drop_task i w)));
    try (by apply (fetched_emit _ w)).
  - destruct (perform (json r) a (storage w)).1 as [[|[[|]|]]|]; try done;
      by apply (fetched_emit (ConsoleError _) (drop_task i w)).
  - destruct (perform (getItem KEY) a (storage w)).1 as [saved|]; cbn;
      [destruct (read_saved saved)|]; try done;
      by apply (fetched_emit (ConsoleError _) (drop_task i w)).
Qed.

Lemma seqZ_snoc (m n : Z) : (0 ≤ n)%Z → seqZ m (n + 1) = seqZ m n ++ [(m + n)%Z].
Proof. intros Hn. by rewrite seqZ_app by lia. Qed.

Lemma step_consecutive w a : tasks_ok w → consecutive w → consecutive (step w a).
Proof.
  unfold consecutive. intros Hw [Hp Hf].
  destruct (step_cases a w Hw) as [[-> Hsame] | (ev & k & -> & _ & _ & _ & _ & _ & ->)].
  - rewrite Hsame, (handled_fetched _ _ _ (handle_handled a w Hw)). done.
  - unfold fetched in *. world_fields. split; [lia|].
    rewrite omap_app, Hf. cbn. rewrite seqZ_snoc, fmap_app by lia. cbn.
    do 3 f_equal. lia.
Qed.

(** X2.  In every session of the mounted screen the first request is the
    one for page 1, the page numbers requested grow strictly from one
    request to the next, so that no page is asked for twice (a failed
    fetch is not retried), none is above the current page number, and
    every request is the one for the country "us" with a page size of 10
    and the configured key. *)
Theorem no_page_is_requested_twice st acts :
  let w := session (mount st) acts in
  head (requests w) = Some 1%Z ∧
  (∀ i j m n, requests w !! i = Some m → requests w !! j = Some n →
     i < j → (m < n)%Z) ∧
  NoDup (requests w) ∧
  Forall (λ n, 1 ≤ n ≤ page (screen w))%Z (requests w) ∧
  fetched w = top_headlines <$> requests w.
Proof.
  intros w.
  assert (Hc : consecutive w).
  { apply (session_invariant consecutive).
    - intros w0 a. apply step_consecutive.
    - apply mount_tasks_ok.
    - destruct (mount_world st) as (k & _ & ->). done. }
  destruct Hc as [Hp Hf].
  assert (Hr : requests w = seqZ 1 (page (screen w))).
  { assert (Hr : requests w = query_page <$> fetched w).
    { unfold requests, fetched. induction (log w) as [|o lg IH]; [done|].
      destruct o; cbn; by rewrite ?IH. }
    rewrite Hr, Hf, <- list_fmap_compose. cbn. by rewrite list_fmap_id. }
  rewrite Hr. split; [by rewrite seqZ_cons by lia|].
  split; [|split; [apply NoDup_seqZ|split; [|done]]].
  - intros i j m n Hi Hj Hij.
    apply lookup_seqZ in Hi as [-> _]. apply lookup_seqZ in Hj as [-> _]. lia.
  - apply Forall_seqZ. intros n Hn. lia.
Qed.

(** *** The feed only grows *)

Lemma step_page w a :
  tasks_ok w →
  page (screen (step w a)) = page (screen w) ∨
  (∃ ev, a = Scroll ev) ∧ page (screen (step w a)) = (page (screen w) + 1)%Z.
Proof.
  intros Hw.
  destruct (step_cases a w Hw) as [[-> Hsame] | (ev & k & -> & _ & _ & _ & _ & _ & ->)].
  - by left.
  - right. split; [by exists ev|done].
Qed.

Lemma session_page acts w :
  tasks_ok w →
  (page (screen w) ≤ page (screen (session w acts)) ≤ page (screen w) + Z.of_nat (scrolls acts))%Z.
Proof.
  revert w. induction acts as [|a acts IH]; intros w Hw.
  - cbn. lia.
  - rewrite session_cons. specialize (IH (step w a) (step_tasks_ok w a Hw)).
    unfold scrolls in *. rewrite filter_cons.
    destruct (step_page w a Hw) as [Hp | [[ev ->] Hp]]; rewrite Hp in IH.
    + destruct a; cbn; case_decide; try done; cbn [length]; lia.
    + cbn. case_decide; try done. cbn [length]. lia.
Qed.

(** X3.  In a session of the mounted screen the feed only grows: after any
    further actions the page number is at least what it was, and at most
    that plus the number of scroll events among them, and the article list
    has the old one as a prefix. *)
Theorem feed_only_grows st acts more :
  let w := session (mount st) acts in
  let w' := session w more in
  (page (screen w) ≤ page (screen w') ≤ page (screen w) + Z.of_nat (scrolls more))%Z ∧
  news (screen w) `prefix_of` news (screen w').
Proof.
  intros w w'.
  assert (Hw : tasks_ok w) by apply session_tasks_ok, mount_tasks_ok.
  split; [by apply session_page|].
  unfold w'. rewrite session_news by done. by apply prefix_app_r.
Qed.

(** X4.  In a session of the mounted screen only one thing ends the
    pagination: [hasMore] goes from true to false only when a response
    body arrives whose article list is absent or empty.  A failed fetch, a
    scroll, the bookmarks never do it. *)
Theorem only_an_empty_page_ends_pagination st acts a :
  let w := session (mount st) acts in
  hasMore (screen w) = true → hasMore (screen (step w a)) = false →
  ∃ i r, a = Settle i Resolve ∧ body_awaited w i = Some r ∧
    (body r = Some (JObject None) ∨ body r = Some (JObject (Some []))).
Proof.
  intros w Ht Hf.
  assert (Hw : tasks_ok w) by apply session_tasks_ok, mount_tasks_ok.
  destruct (step_cases a w Hw) as [[Hs _] | (ev & k & _ & _ & _ & _ & _ & _ & Hs)];
    rewrite Hs in Hf; [|cbn in Hf; congruence].
  pose proof (handle_handled a w Hw) as Hh.
  remember (handle a w) as w' eqn:Hw'. clear Hw' Hs.
  handled_cases Hh; try (cbn in Hf; congruence).
  - exists i, r.
    assert (Hb : body_awaited w i = Some r) by (unfold body_awaited; by rewrite Hi).
    destruct a as [| |r']; [cbn in Hf; congruence| |cbn in Hf; congruence].
    split; [done|]. split; [done|].
    cbn in Hf. destruct (body r) as [[|[[|x arr]|]]|]; cbn in Hf; try congruence; auto.
  - destruct (perform (getItem KEY) a (storage w)).1 as [saved|]; cbn in Hf;
      [destruct (read_saved saved)|]; cbn in Hf; congruence.
Qed.

(** *** The storage *)

Lemma handled_storage w a w' key :
  handled w a w' → key ≠ KEY → storage w' !! key = storage w !! key.
Proof.
  intros Hh Hkey. handled_cases Hh; try done.
  - by destruct (perform (json r) a (storage w)).1 as [[|[[|]|]]|].
  - destruct (perform (getItem KEY) a (storage w)).1 as [saved|]; cbn;
      [by destruct (read_saved saved)|done].
  - cbn. by rewrite lookup_insert_ne.
Qed.

Lemma step_storage w a :
  tasks_ok w → step w a = handle a w ∨ storage (step w a) = storage w.
Proof.
  intros Hw.
  destruct (step_cases a w Hw) as [[-> _] | (ev & k & _ & _ & _ & _ & _ & _ & ->)];
    [by left | by right].
Qed.

(** X8.  The screen keeps to its own key: in every session of the mounted
    screen, what the storage holds under any key other than
    "savedArticles" is what it held when the screen was mounted. *)
Theorem other_keys_are_untouched st acts key :
  key ≠ "savedArticles" →
  storage (session (mount st) acts) !! key = st !! key.
Proof.
  intros Hkey.
  apply (session_invariant (λ w, storage w !! key = st !! key)).
  - intros w a Hw Hi.
    destruct (step_storage w a Hw) as [-> | ->]; [|done].
    by rewrite (handled_storage _ _ _ key (handle_handled a w Hw)).
  - apply mount_tasks_ok.
  - destruct (mount_world st) as (k & _ & ->). done.
Qed.

Lemma handled_well_kept `{!Lawful} w a w' : handled w a w' → well_kept w → well_kept w'.
Proof.
  unfold well_kept, readable. intros Hh [Hst Hsv].
  handled_cases Hh; try done.
  - by destruct (perform (json r) a (storage w)).1 as [[|[[|]|]]|].
  - destruct a; cbn; try done.
    destruct Hst as [l Hl]. rewrite Hl. cbn. eauto.
  - split; [|done]. exists l. cbn. apply read_saved_insert.
Qed.

(** X9.  When the screen is mounted over a storage from which an array of
    bookmarks can be read (nothing stored counts), this stays so in every
    session: what the screen writes can be read back.  The bookmarks in
    memory are then always an array, and rendering never fails. *)
Theorem bookmarks_stay_readable `{!Lawful} st acts :
  readable st →
  let w := session (mount st) acts in
  readable (storage w) ∧ (∃ l, savedArticles (screen w) = JsArray l) ∧
  is_Some (rendered (screen w)).
Proof.
  intros Hst w.
  assert (Hk : well_kept w).
  { apply (session_invariant well_kept).
    - intros w0 a Hw0 Hi.
      destruct (step_cases a w0 Hw0) as [[-> _] | (ev & k & _ & _ & _ & _ & _ & _ & ->)];
        [|done].
      by apply (handled_well_kept w0 a _ (handle_handled a w0 Hw0)).
    - apply mount_tasks_ok.
    - destruct (mount_world st) as (k & _ & ->). split; [done|by exists []]. }
  destruct Hk as [Hr [l Hl]]. split; [done|]. split; [by exists l|].
  unfold rendered. rewrite Hl. by destruct (viewingSaved (screen w)).
Qed.

(** *** Scrolling *)

Lemma is_nan_Prim2SF x : is_nan x = true → Prim2SF x = S754_nan.
Proof. intros Hx. unfold Prim2SF. by rewrite Hx. Qed.

Lemma geb_nan x y : Prim2SF x = S754_nan ∨ Prim2SF y = S754_nan → geb x y = false.
Proof.
  intros Hn. unfold geb. rewrite FloatAxioms.compare_spec.
  destruct Hn as [-> | ->]; [done|]. by destruct (Prim2SF x).
Qed.

(** X18.  The test of [handleScroll] is made on doubles.  When one of the
    three measurements is NaN the event is not near the bottom, and the
    handler does nothing.  A measurement need not be an integer: with a
    viewport of 0.5 and a content of 20.75 the test holds at the
    offset 0.25 and not at 0.125.  At the scale of 2^53 the sum is rounded: with a
    viewport of 2^53, an offset of 3 and a content of 2^53 + 24 the test
    holds, the sum being rounded to 2^53 + 4, although 2^53 + 3 is less
    than 2^53 + 4. *)
Theorem near_bottom_on_doubles w ev :
  (is_nan (layoutMeasurement_height ev) = true ∨ is_nan (contentOffset_y ev) = true
   ∨ is_nan (contentSize_height ev) = true →
     isCloseToBottom ev = false ∧ run (handleScroll (screen w) ev) w = w) ∧
  isCloseToBottom (mkScroll 0.5 0.25 20.75) = true ∧
  isCloseToBottom (mkScroll 0.5 0.125 20.75) = false ∧
  isCloseToBottom (mkScroll (double (2 ^ 53)) (double 3) (double (2 ^ 53 + 24))) = true ∧
  (3 + 2 ^ 53 <? 2 ^ 53 + 24 - 20)%Z = true ∧
  (double (2 ^ 53) + double 3 = double (2 ^ 53 + 4))%float.
Proof.
  split; [|done].
  intros Hn.
  assert (Hc : isCloseToBottom ev = false).
  { unfold isCloseToBottom. apply geb_nan.
    destruct Hn as [Hn | [Hn | Hn]]; apply is_nan_Prim2SF in Hn.
    - left. rewrite add_spec, Hn. done.
    - left. rewrite add_spec, Hn. by destruct (Prim2SF (layoutMeasurement_height ev)).
    - right. rewrite sub_spec, Hn. done. }
  split; [done|]. unfold handleScroll. by rewrite Hc.
Qed.

(** *** Saving and reading the bookmarks *)

(** X12.  When the read of the bookmarks fails, because the storage call
    is rejected or because the stored text is not JSON, [getSavedArticles]
    logs the error and changes nothing else: the list in memory is the one
    of the last successful read, not the empty list. *)
Theorem failed_read_keeps_the_list w a :
  a ≠ Resolve ∨ read_saved (storage w !! KEY) = None →
  let w' := settle_last a (run getSavedArticles w) in
  screen w' = screen w ∧ storage w' = storage w ∧ pending w' = pending w ∧
  log w' = log w ++ [StorageGet KEY; ConsoleError "Error fetching saved articles"].
Proof.
  intros Hbad w'. unfold w'. rewrite load_round.
  assert (Hl : load_done (perform (getItem KEY) a (storage w)).1 (emit (StorageGet KEY) w)
               = load_failed (emit (StorageGet KEY) w)).
  { destruct Hbad as [Ha | Hr]; [by destruct a|].
    destruct a; cbn; by rewrite ?Hr. }
  rewrite Hl. cbn. by rewrite <- app_assoc.
Qed.

Lemma save_all_stores `{!Lawful} articles w l :
  read_saved (storage w !! KEY) = Some (JsArray l) →
  read_saved (storage (save_all articles w) !! KEY) = Some (JsArray (l ++ articles)) ∧
  screen (save_all articles w) = screen w.
Proof.
  revert w l. induction articles as [|a articles IH]; intros w l Hr.
  - cbn. by rewrite app_nil_r.
  - cbn [save_all foldl]. fold (save_all articles (save a w)).
    destruct (save_stores w a l Hr) as [Hs Hst].
    destruct (IH (save a w) (l ++ [a])) as [Hr' Hs'].
    { rewrite Hst. apply read_saved_insert. }
    split; [by rewrite Hr', <- app_assoc | by rewrite Hs'].
Qed.

(** X17.  In a session of the mounted screen, in which the text under the
    key changes only through the saves of the screen, a read of the
    bookmarks that finds nothing stored, or a text that is not JSON,
    ends with no bookmarks in memory.  The text that is not JSON is the
    one the device held when the screen was mounted, so that no read
    before has put bookmarks in memory and no save has succeeded. *)
Theorem a_mounted_screen_reads_no_stale_list `{!Lawful} st acts :
  let w := session (mount st) acts in
  (storage w !! KEY = None →
     savedArticles (screen (loadAll w)) = JsArray [] ∧
     log (loadAll w) = log w ++ [StorageGet KEY]) ∧
  (∀ text, storage w !! KEY = Some text → text ≠ "" → JSON_parse text = None →
     savedArticles (screen (loadAll w)) = JsArray [] ∧
     log (loadAll w)
     = log w ++ [StorageGet KEY; ConsoleError "Error fetching saved articles"]).
Proof.
  intros w. unfold loadAll. rewrite load_round. cbn [perform fst]. split.
  - intros Hn. rewrite Hn. done.
  - intros text Ht Hne Hp.
    assert (Hs : nothing_stale w).
    { apply session_nothing_stale; [apply mount_tasks_ok|].
      intros _. unfold mount.
      by destruct (fetchNews_starts initial (page initial)) as (k & _ & ->). }
    rewrite Ht. cbn. rewrite bool_decide_eq_false_2, Hp by done. cbn.
    split; [|by rewrite <- app_assoc].
    apply Hs. unfold unreadable. rewrite Ht. by right.
Qed.

(** X10.  Saves that follow one another add up: after saving the articles
    of a list in turn, reading the bookmarks gives what was stored before
    followed by these articles, in the order of the saves, repeated ones
    included. *)
Theorem saves_add_up `{!Lawful} w articles l :
  read_saved (storage w !! KEY) = Some (JsArray l) →
  savedArticles (screen (loadAll (save_all articles w))) = JsArray (l ++ articles).
Proof.
  intros Hr. apply loadAll_reads. by apply save_all_stores.
Qed.

Lemma settle_middle {X} (c : Call X) k a s st l1 l2 lg :
  settle (length l1) a (mkWorld s st (l1 ++ Suspended c k :: l2) lg)
  = run (k (perform c a st).1) (mkWorld s (perform c a st).2 (l1 ++ l2) lg).
Proof.
  unfold settle. cbn [pending storage screen log].
  rewrite list_lookup_middle by done. rewrite delete_middle.
  by destruct (perform c a st).
Qed.

(** X11.  Two overlapping saves lose one: when both have read the stored
    list before either has written, the second write replaces the first,
    so the storage ends with the old list and the second article only,
    although both saves were confirmed. *)
Theorem overlapping_saves_lose_one `{!Lawful} w a b l :
  read_saved (storage w !! KEY) = Some (JsArray l) →
  let w' := overlapping_saves a b w in
  storage w' = <[KEY := JSON_stringify (l ++ [b])]> (<[KEY := JSON_stringify (l ++ [a])]> (storage w)) ∧
  log w' = log w ++ [StorageGet KEY; StorageGet KEY;
                     StorageSet KEY (JSON_stringify (l ++ [a]));
                     StorageSet KEY (JSON_stringify (l ++ [b]));
                     Alert "Saved!"; Alert "Saved!"] ∧
  pending w' = pending w ∧
  savedArticles (screen (loadAll w')) = JsArray (l ++ [b]).
Proof.
  intros Hr w'.
  assert (Hw' : w' = mkWorld (screen w)
            (<[KEY := JSON_stringify (l ++ [b])]> (<[KEY := JSON_stringify (l ++ [a])]> (storage w)))
            (pending w)
            (log w ++ [StorageGet KEY; StorageGet KEY;
                       StorageSet KEY (JSON_stringify (l ++ [a]));
                       StorageSet KEY (JSON_stringify (l ++ [b]));
                       Alert "Saved!"; Alert "Saved!"])).
  { unfold w', overlapping_saves.
    destruct (saveArticle_starts a) as (ka & [_ Hka] & ->).
    destruct (saveArticle_starts b) as (kb & [_ Hkb] & ->).
    specialize (Hka (storage w !! KEY)). specialize (Hkb (storage w !! KEY)).
    rewrite Hr in Hka, Hkb.
    destruct Hka as (ka2 & Hka2 & Hka). destruct Hkb as (kb2 & Hkb2 & Hkb).
    destruct w as [s st pend lg]. cbn [pending storage screen log] in *.
    cbn [run pending storage screen log session foldl].
    unfold step at 4. cbn [handle screen].
    rewrite <- (app_assoc pend). cbn [app].
    rewrite (settle_middle (getItem KEY) ka). cbn [perform fst snd]. rewrite Hka.
    cbn [run pending storage screen log]. rewrite rerender_same by done.
    unfold step at 3. cbn [handle screen].
    rewrite <- (app_assoc pend). cbn [app].
    rewrite (settle_middle (getItem KEY) kb). cbn [perform fst snd]. rewrite Hkb.
    cbn [run pending storage screen log]. rewrite rerender_same by done.
    unfold step at 2. cbn [handle screen].
    rewrite <- (app_assoc pend). cbn [app].
    rewrite (settle_middle (setItem KEY (JSON_stringify (l ++ [a]))) ka2).
    cbn [perform fst snd]. rewrite Hka2.
    unfold write_done, emit. cbn [pending storage screen log].
    rewrite rerender_same by done.
    unfold step. cbn [handle screen].
    rewrite (settle_middle (setItem KEY (JSON_stringify (l ++ [b]))) kb2).
    cbn [perform fst snd]. rewrite Hkb2.
    unfold write_done, emit. cbn [pending storage screen log].
    rewrite rerender_same by done.
    rewrite app_nil_r. f_equal. by rewrite <- !app_assoc. }
  rewrite Hw'. cbn [storage log pending]. do 3 (split; [done|]).
  apply loadAll_reads. cbn [storage]. apply read_saved_insert.
Qed.

(** *** The feed and the bookmarks *)

(** X7.  The feed and the bookmarks do not interfere.  In a session of
    the mounted screen, an action of the feed (a scroll, a request or a
    body settling) leaves the bookmarks in memory, the view shown and the
    storage as they were; any other action (a press, a storage call
    settling) leaves the article list, the page number, [hasMore] and
    [loading] as they were, and issues no request. *)
Theorem feed_and_bookmarks_are_independent st acts a :
  let w := session (mount st) acts in
  if on_feed w a
  then bookmarks (step w a) = bookmarks w
  else feed (screen (step w a)) = feed (screen w) ∧
       loading (screen (step w a)) = loading (screen w) ∧
       fetched (step w a) = fetched w.
Proof.
  intros w.
  assert (Hw : tasks_ok w) by apply session_tasks_ok, mount_tasks_ok.
  destruct (step_cases a w Hw) as [[-> _] | (ev & k & -> & _ & _ & _ & _ & _ & ->)];
    [|done].
  pose proof (handled_fetched _ _ _ (handle_handled a w Hw)) as Hf.
  pose proof (handle_handled a w Hw) as Hh.
  remember (handle a w) as w' eqn:Hw'. clear Hw'.
  unfold on_feed, bookmarks, feed.
  handled_cases Hh; rewrite ?Hi; cbn [fetching]; try done.
  - by destruct (perform (json r) a (storage w)).1 as [[|[[|]|]]|].
  - split; [|split; [|done]];
      (destruct (perform (getItem KEY) a (storage w)).1 as [saved|]; cbn;
       [by destruct (read_saved saved)|done]).
Qed.

(** X6.  Once [hasMore] is false the page number is frozen: in a session
    of the mounted screen, whatever follows, no scroll event advances it
    any more. *)
Theorem page_is_frozen_at_the_end st acts more :
  let w := session (mount st) acts in
  hasMore (screen w) = false →
  page (screen (session w more)) = page (screen w).
Proof.
  intros w Hf.
  assert (Hw : tasks_ok w) by apply session_tasks_ok, mount_tasks_ok.
  clearbody w. revert w Hw Hf.
  induction more as [|a more IH]; intros w Hw Hf; [done|].
  rewrite session_cons.
  destruct (session_hasMore [a] w Hw Hf) as [Hf' _].
  rewrite IH; [|by apply step_tasks_ok|done].
  destruct (step_cases a w Hw) as [[-> Hp] | (ev & k & _ & _ & Hm & _)]; [done|congruence].
Qed.

(** *** What is shown *)

Lemma view_entries s v :
  view s = Some v →
  ∃ shown, rendered s = Some shown ∧
    entries v = imap (if viewingSaved s then saved_item else news_item) shown ∧
    spinning v = loading s ∧
    head (links v)
    = Some (if viewingSaved s then "Back to News" else "View Saved Articles", toggleView s).
Proof.
  unfold view, rendered. intros Hv.
  destruct (viewingSaved s) eqn:Hs.
  - destruct (savedArticles s) as [l|]; [|done]. cbn in Hv. injection Hv as <-.
    exists l. cbn. unfold spinner. destruct (loading s); by rewrite app_nil_r.
  - cbn in Hv. injection Hv as <-. exists (news s). cbn.
    unfold spinner. destruct (loading s); by rewrite app_nil_r.
Qed.

Lemma entry_lookup (f : nat → NewsArticle → ReactNode) shown i :
  imap f shown !! i = f i <$> shown !! i.
Proof. apply list_lookup_imap. Qed.

Lemma fmap_imap_entries {B} (h : ReactNode → B) (f : nat → NewsArticle → ReactNode)
    (g : NewsArticle → B) l :
  (∀ k x, h (f k x) = g x) → h <$> imap f l = g <$> l.
Proof.
  intros Hf. revert f Hf. induction l as [|a l IH]; intros f Hf; [done|].
  cbn. rewrite Hf. f_equal. apply IH. intros k x. apply Hf.
Qed.

Lemma keys_imap_from (f : nat → NewsArticle → ReactNode) l n :
  (∀ k x, key_of (f k x) = Some (n + k)) → key_of <$> imap f l = Some <$> seq n (length l).
Proof.
  revert f n. induction l as [|a l IH]; intros f n Hf; [done|].
  cbn. rewrite Hf, Nat.add_0_r. f_equal.
  apply IH. intros k x. unfold compose. rewrite Hf. f_equal. lia.
Qed.

Lemma links_entry (saved : bool) i item :
  links ((if saved then saved_item else news_item) i item) = entry_links saved item.
Proof. destruct saved; cbn; [done|]. unfold item_image. by case_bool_decide. Qed.

Lemma images_entry (saved : bool) i item :
  images ((if saved then saved_item else news_item) i item) = entry_images saved item.
Proof.
  unfold entry_images. destruct saved; cbn; [done|]. unfold item_image.
  by case_bool_decide.
Qed.

(** X14.  The list shown, as a whole.  There are as many entries as
    articles shown (none when there is no article), with the keys 0, 1,
    2, ... in this order.  In the feed the entry of an article has two
    links, "Read", which opens its URL, and "Save", which saves it, and
    one image when the article has an image URL and none otherwise; in
    the saved list it has the "Read" link only, and never an image.  The
    screen has no other link than these and the toggle, which comes
    first, and no other image than these and the header image; the
    activity indicator is there exactly while [loading] is true. *)
Theorem entries_and_their_links s v shown :
  view s = Some v → rendered s = Some shown →
  length (entries v) = length shown ∧
  key_of <$> entries v = Some <$> seq 0 (length shown) ∧
  links <$> entries v = entry_links (viewingSaved s) <$> shown ∧
  images <$> entries v = entry_images (viewingSaved s) <$> shown ∧
  links v
  = (if viewingSaved s then "Back to News" else "View Saved Articles", toggleView s)
      :: concat (entry_links (viewingSaved s) <$> shown) ∧
  images v
  = "https://example.com/header-image.png"
      :: concat (entry_images (viewingSaved s) <$> shown) ∧
  spinning v = loading s.
Proof.
  intros Hv Hr.
  assert (He : v = ScrollView (Sheet styles.container) (Sheet styles.scrollContent)
                     (handleScroll s) 16
                     [Image "https://example.com/header-image.png" (Sheet styles.headerImage);
                      ThemedView (Some (Sheet styles.titleContainer))
                        [ThemedText (Some type_title) None [JsString "Welcome to My News App!"];
                         TouchableOpacity (toggleView s)
                           [ThemedText None (Some (Sheet styles.toggleViewLink))
                              [JsString (if viewingSaved s then "Back to News"
                                         else "View Saved Articles")]]];
                      NodeList (imap (if viewingSaved s then saved_item else news_item) shown);
                      spinner s]).
  { unfold view, rendered in *. destruct (viewingSaved s).
    - destruct (savedArticles s) as [l|]; [|done]. cbn in Hv. by simplify_eq.
    - cbn in Hv. by simplify_eq. }
  assert (Hen : entries v = imap (if viewingSaved s then saved_item else news_item) shown).
  { rewrite He. cbn. unfold spinner. destruct (loading s); by rewrite app_nil_r. }
  assert (Hls : links (spinner s) = [] ∧ images (spinner s) = []).
  { unfold spinner. by destruct (loading s). }
  destruct Hls as [Hls His].
  assert (Hl : links <$> entries v = entry_links (viewingSaved s) <$> shown).
  { rewrite Hen. apply fmap_imap_entries. intros k x. apply links_entry. }
  assert (Hi : images <$> entries v = entry_images (viewingSaved s) <$> shown).
  { rewrite Hen. apply fmap_imap_entries. intros k x. apply images_entry. }
  split; [by rewrite Hen, length_imap|].
  split; [rewrite Hen; apply keys_imap_from; intros k x; by destruct (viewingSaved s)|].
  split; [done|]. split; [done|].
  split; [|split].
  - rewrite He. cbn [links map concat]. rewrite Hls.
    change (map links ?l) with (links <$> l). rewrite <- Hen, Hl.
    cbn. rewrite !app_nil_r. by destruct (viewingSaved s).
  - rewrite He. cbn [images map concat]. rewrite His.
    change (map images ?l) with (images <$> l). rewrite <- Hen, Hi.
    cbn. by rewrite !app_nil_r.
  - rewrite He. cbn. unfold spinner. by destruct (loading s).
Qed.

Lemma links_imap (f : nat → NewsArticle → ReactNode) (g : NewsArticle → string * Async unit) l :
  (∀ k x, links (f k x) = [g x]) →
  concat (map links (imap f l)) = imap (λ _, g) l.
Proof.
  revert f. induction l as [|a l IH]; intros f Hf; [done|].
  cbn. rewrite Hf. cbn. f_equal. apply IH. intros k x. apply Hf.
Qed.

(** X15.  The earlier variant of the screen shows one entry per article of
    the feed (none when the feed is empty), with the keys 0, 1, 2, ... in
    this order, each with a single link, "Read Article", which opens the
    URL of its article.  These are all the links of the screen: it offers
    no toggle and never offers to save an article.  The activity
    indicator is there exactly while [loading] is true. *)
Theorem basic_entries_and_their_links s :
  length (entries (basic_view s)) = length (news s) ∧
  key_of <$> entries (basic_view s) = Some <$> seq 0 (length (news s)) ∧
  links <$> entries (basic_view s) = (λ item, [("Read Article", openLink item)]) <$> news s ∧
  links (basic_view s) = (λ item, ("Read Article", openLink item)) <$> news s ∧
  images (basic_view s)
  = "https://example.com/header-image.png" :: concat (entry_images false <$> news s) ∧
  spinning (basic_view s) = loading s.
Proof.
  assert (He : entries (basic_view s) = imap basic_item (news s)).
  { unfold basic_view, spinner. destruct (loading s); cbn; by rewrite app_nil_r. }
  assert (Hls : links (spinner s) = [] ∧ images (spinner s) = []).
  { unfold spinner. by destruct (loading s). }
  destruct Hls as [Hls His].
  split; [by rewrite He, length_imap|].
  split; [rewrite He; by apply keys_imap_from|].
  split; [|split; [|split]].
  - rewrite He. apply fmap_imap_entries. intros k x. cbn. unfold item_image.
    by case_bool_decide.
  - unfold basic_view. cbn [links map concat]. rewrite Hls, !app_nil_r. cbn [app].
    rewrite (links_imap basic_item (λ item, ("Read Article", openLink item))).
    + apply imap_const.
    + intros k x. cbn. unfold item_image. by case_bool_decide.
  - unfold basic_view. cbn [images map concat]. rewrite His, !app_nil_r. cbn.
    f_equal. change (map images ?l) with (images <$> l).
    rewrite (fmap_imap_entries images basic_item (entry_images false)); [done|].
    intros k x. unfold entry_images. cbn. unfold item_image. by case_bool_decide.
  - unfold basic_view, spinner. by destruct (loading s).
Qed.

Lemma view_fails s : view s = None ↔ viewingSaved s = true ∧ savedArticles s = JsOther.
Proof.
  unfold view. destruct (viewingSaved s); [destruct (savedArticles s)|]; cbn; split;
    try done; by intros [? ?].
Qed.

Lemma links_saved_item i item : links (saved_item i item) = [("Read", openLink item)].
Proof. done. Qed.

Lemma links_news_item i item :
  links (news_item i item) = [("Read", openLink item); ("Save", saveArticle item)].
Proof. cbn. unfold item_image. by case_bool_decide. Qed.

Lemma link_of_entry s i item :
  let entry := (if viewingSaved s then saved_item else news_item) i item in
  link "Read" entry = Some (openLink item) ∧
  link "Save" entry = if viewingSaved s then None else Some (saveArticle item).
Proof.
  unfold link. destruct (viewingSaved s); cbn zeta.
  - by rewrite links_saved_item.
  - by rewrite links_news_item.
Qed.

(** X16.  The presses of the session are the links of the screen.  A press
    on "Read" or "Save" at position [i] runs the handler of the link with
    that text in the [i]-th entry shown, and does nothing when there is no
    such entry or no such link: there is no "Save" in the saved list.  The
    first link of the screen is the toggle, labelled by the view it leads
    to; the scroll handler of the screen is [handleScroll]; the activity
    indicator is shown exactly while [loading] is true.  Rendering fails
    exactly when the saved list is shown and is not an array. *)
Theorem presses_run_the_links w :
  (∀ i, handle (PressRead i) w
        = match (view (screen w) ≫= λ v, entries v !! i) ≫= link "Read" with
          | Some h => run h w
          | None => w
          end) ∧
  (∀ i, handle (PressSave i) w
        = match (view (screen w) ≫= λ v, entries v !! i) ≫= link "Save" with
          | Some h => run h w
          | None => w
          end) ∧
  (∀ v, view (screen w) = Some v →
        (∃ h, head (links v)
              = Some (if viewingSaved (screen w) then "Back to News"
                      else "View Saved Articles", h)
              ∧ handle PressToggle w = run h w) ∧
        (∀ ev, match v with
               | ScrollView _ _ onScroll _ _ => handle (Scroll ev) w = run (onScroll ev) w
               | _ => False
               end) ∧
        spinning v = loading (screen w)) ∧
  (view (screen w) = None ↔ viewingSaved (screen w) = true ∧ savedArticles (screen w) = JsOther).
Proof.
  assert (Hpress : ∀ i,
    match view (screen w) with
    | None => rendered (screen w) = None ∧ viewingSaved (screen w) = true
    | Some v =>
        ∃ shown, rendered (screen w) = Some shown ∧
          match shown !! i with
          | None => entries v !! i = None
          | Some item =>
              ∃ entry, entries v !! i = Some entry ∧
                link "Read" entry = Some (openLink item) ∧
                link "Save" entry
                = if viewingSaved (screen w) then None else Some (saveArticle item)
          end
    end).
  { intros i. destruct (view (screen w)) as [v|] eqn:Hv.
    - destruct (view_entries _ _ Hv) as (shown & Hr & He & _).
      exists shown. split; [done|]. rewrite He, entry_lookup.
      destruct (shown !! i) as [item|] eqn:Hi; [|done].
      eexists. split; [done|]. apply (link_of_entry (screen w) i item).
    - apply view_fails in Hv as [Hs Ho]. unfold rendered. by rewrite Hs, Ho. }
  split; [|split; [|split]].
  - intros i. specialize (Hpress i). cbn [handle].
    destruct (view (screen w)) as [v|]; cbn.
    + destruct Hpress as (shown & -> & Hi). cbn.
      destruct (shown !! i) as [item|]; [|by rewrite Hi].
      destruct Hi as (entry & He & Hl & _). rewrite He. cbn. by rewrite Hl.
    + destruct Hpress as [-> _]. done.
  - intros i. specialize (Hpress i). cbn [handle].
    destruct (view (screen w)) as [v|]; cbn.
    + destruct Hpress as (shown & Hr & Hi). unfold rendered in Hr.
      destruct (viewingSaved (screen w)) eqn:Hs.
      * destruct (shown !! i) as [item|]; [|by rewrite Hi].
        destruct Hi as (entry & He & _ & Hl). rewrite He. cbn. by rewrite Hl.
      * injection Hr as <-.
        destruct (news (screen w) !! i) as [item|]; [|by rewrite Hi].
        destruct Hi as (entry & He & _ & Hl). rewrite He. cbn. by rewrite Hl.
    + destruct Hpress as [_ ->]. done.
  - intros v Hv. destruct (view_entries _ _ Hv) as (shown & _ & _ & Hsp & Hl).
    split; [exists (toggleView (screen w)); split; [exact Hl | reflexivity]|].
    split; [|exact Hsp].
    intros ev. unfold view in Hv.
    destruct (viewingSaved (screen w)); [destruct (savedArticles (screen w))|];
      cbn in Hv; try done; by injection Hv as <-.
  - apply view_fails.
Qed.

(** X13.  Stored text that is JSON but not an array breaks the saved
    list: after a press on the toggle link and the read of the bookmarks,
    what is in memory is not an array while the saved list is the one to
    show, and rendering it fails, [savedArticles.map] not being a
    function. *)
Theorem stored_non_array_breaks_the_saved_list w :
  viewingSaved (screen w) = false →
  read_saved (storage w !! KEY) = Some JsOther →
  let w' := settle_last Resolve (step w PressToggle) in
  savedArticles (screen w') = JsOther ∧ viewingSaved (screen w') = true ∧
  view (screen w') = None.
Proof.
  intros Hv Hr w'.
  destruct getSavedArticles_starts as (k & Hload & Hget).
  assert (H1 : step w PressToggle
               = run (Await (getItem KEY) k) (update (with_viewingSaved true) w)).
  { unfold step, handle, toggleView. rewrite Hv, Hget. by rewrite rerender_same. }
  assert (Hw' : w' = update (with_savedArticles JsOther)
                       (emit (StorageGet KEY) (update (with_viewingSaved true) w))).
  { unfold w'. rewrite H1, settle_last_await, Hload. cbn [perform fst snd].
    cbn [storage update]. unfold load_done. rewrite Hr. by rewrite rerender_same. }
  rewrite Hw'. split; [done|]. split; [done|].
  by apply view_fails.
Qed.
End More.

(** ** The sample platform is lawful *)

Lemma read_write_text s rest :
  Sample.read_text (Sample.write_text s +:+ rest) = Some (s, rest).
Proof. induction s as [|c s IH]; simpl; [done|]. by rewrite IH. Qed.

Lemma read_write_article a rest :
  Sample.read_article (Sample.write_article a rest) = Some (a, rest).
Proof.
  destruct a as [t d i u]. unfold Sample.read_article, Sample.write_article. simpl.
  repeat (rewrite read_write_text; simpl). done.
Qed.

Lemma string_length_append (a b : string) :
  String.length (a +:+ b) = String.length a + String.length b.
Proof. induction a as [|c a IH]; simpl; [done|]. by rewrite IH. Qed.

Lemma write_list_length l : length l < String.length (Sample.write_list l).
Proof.
  induction l as [|a l IH]; cbn; [lia|].
  unfold Sample.write_article. rewrite !string_length_append. lia.
Qed.

Lemma read_write_list l fuel :
  length l < fuel → Sample.read_list fuel (Sample.write_list l) = Some l.
Proof.
  revert fuel. induction l as [|a l IH]; intros [|fuel] Hf; cbn in *; try lia; [done|].
  rewrite read_write_article. cbn. rewrite IH by lia. done.
Qed.

Lemma sample_lawful : @Lawful Sample.platform.
Proof.
  split; [|done]. intros l. cbn.
  by rewrite read_write_list by apply write_list_length.
Qed.

(** ** The model at work *)

#[local] Existing Instance Sample.platform.

(** Two pages arrive, one after the other; the second holds an article of
    the first again, and it is kept. *)
Example browse_two_pages :
  let acts := [Settle 0 (Respond (page_of [art1; art2])); Settle 0 Resolve;
               Scroll at_bottom;
               Settle 0 (Respond (page_of [art3; art1])); Settle 0 Resolve] in
  arrivals (mount ∅) acts = [[art1; art2]; [art3; art1]] ∧
  news (screen (session (mount ∅) acts)) = [art1; art2; art3; art1] ∧
  requests (session (mount ∅) acts) = [1; 2]%Z.
Proof. vm_compute. done. Qed.

(** The second article is saved and the bookmarks are shown. *)
Example save_and_show :
  let w := session (mount ∅)
             [Settle 0 (Respond (page_of [art1; art2])); Settle 0 Resolve;
              PressSave 1; Settle 0 Resolve; Settle 0 Resolve;
              PressToggle; Settle 0 Resolve] in
  rendered (screen w) = Some [art2] ∧
  log w = [HttpGet (top_headlines 1); BodyRead; StorageGet KEY;
           StorageSet KEY (JSON_stringify [art2]); Alert "Saved!"; StorageGet KEY].
Proof. vm_compute. done. Qed.

(** C1 on two pages. *)
Lemma feed_is_concat_of_arrivals_witness :
  let pages := [[art1; art2]; [art3; art1]] in
  let w := session (mount ∅) (browse pages) in
  Forall (λ l, l ≠ []) pages ∧
  arrivals (mount ∅) (browse pages) = pages ∧
  news (screen w) = [art1; art2; art3; art1] ∧
  length (news (screen w)) = sum_list (length <$> pages).
Proof.
  assert (Hpages : Forall (λ l : list NewsArticle, l ≠ []) [[art1; art2]; [art3; art1]])
    by (repeat constructor; discriminate).
  split; [exact Hpages|].
  destruct (feed_is_concat_of_arrivals ∅) as [Hbrowse _].
  exact (Hbrowse _ Hpages).
Defined.

(** C2: the first response has no article list; scrolling to the bottom
    afterwards asks for nothing. *)
Lemma hasMore_false_is_final_witness :
  let w := session (mount ∅) [Settle 0 (Respond empty_page)] in
  let w1 := step w (Settle 0 Resolve) in
  let more := [Scroll at_bottom; PressToggle; Scroll at_bottom] in
  body_awaited w 0 = Some empty_page ∧
  hasMore (screen w1) = false ∧
  hasMore (screen (session w1 more)) = false ∧
  requests (session w1 more) = requests w1.
Proof.
  split; [reflexivity|].
  apply (hasMore_false_is_final ∅ [Settle 0 (Respond empty_page)] 0 empty_page);
    [reflexivity | left; reflexivity].
Defined.

(** C3 while a fetch is outstanding. *)
Lemma fetchNews_guard_is_noop_witness :
  loading (screen busy) = true ∧
  fetchNews (screen busy) 2 = Return tt ∧ run (fetchNews (screen busy) 2) busy = busy.
Proof.
  split; [reflexivity|].
  apply (fetchNews_guard_is_noop busy 2). left. reflexivity.
Defined.

(** C5 on a successful fetch. *)
Lemma loading_is_released_witness :
  let w1 := run (fetchNews (screen fresh) 1) fresh in
  let w2 := settle_last (Respond (page_of [art1])) w1 in
  let w3 := settle_last Resolve w2 in
  loading (screen w1) = true ∧ length (pending w1) = S (length (pending fresh)) ∧
  ((pending w2 = pending fresh ∧ loading (screen w2) = false) ∨
   (length (pending w2) = S (length (pending fresh)) ∧ loading (screen w2) = true ∧
    pending w3 = pending fresh ∧ loading (screen w3) = false)).
Proof.
  apply (loading_is_released fresh 1 (Respond (page_of [art1])) Resolve); reflexivity.
Defined.

(** C9 on a rejected request. *)
Lemma fetch_failure_only_logs_witness :
  let w1 := run (fetchNews (screen fresh) 1) fresh in
  let w2 := settle_last Reject w1 in
  feed (screen w2) = feed (screen fresh) ∧ loading (screen w2) = false ∧
  log w2 = log w1 ++ [ConsoleError "Error fetching news"].
Proof.
  destruct (fetch_failure_only_logs fresh 1 Reject Resolve) as [Hfail _];
    [reflexivity | reflexivity |].
  destruct Hfail as [(Hfeed & Hload & _) Hlog]; [discriminate|].
  exact (conj Hfeed (conj Hload Hlog)).
Defined.

(** C4 as it is stated does not hold: with bookmarks in memory and a
    stored text that is not JSON, [getSavedArticles] logs the error and
    the bookmarks are still there, not the empty list. *)
Lemma loadAll_keeps_the_list_on_a_parse_error :
  savedArticles (screen stale) = JsArray [art3] ∧
  storage stale !! KEY = Some "garbage" ∧
  JSON_parse "garbage" = None ∧
  log (loadAll stale) = [StorageGet KEY; ConsoleError "Error fetching saved articles"] ∧
  savedArticles (screen (loadAll stale)) = JsArray [art3] ∧
  savedArticles (screen (loadAll stale)) ≠ JsArray [].
Proof. repeat split; try reflexivity. discriminate. Qed.

(** C4 over an empty storage and over a text that is not JSON. *)
Lemma loadAll_empty_or_kept_witness :
  (storage fresh !! KEY = None ∧
   savedArticles (screen (loadAll fresh)) = JsArray [] ∧
   log (loadAll fresh) = log fresh ++ [StorageGet KEY]) ∧
  (storage stale !! KEY = Some "garbage" ∧
   savedArticles (screen (loadAll stale)) = savedArticles (screen stale) ∧
   log (loadAll stale)
   = log stale ++ [StorageGet KEY; ConsoleError "Error fetching saved articles"]).
Proof.
  split; (split; [reflexivity|]).
  - destruct (loadAll_empty_or_kept fresh) as [Hnone _]. apply Hnone. reflexivity.
  - destruct (loadAll_empty_or_kept stale) as [_ Hbad].
    apply (Hbad "garbage"); [reflexivity | discriminate | reflexivity].
Defined.

(** C6 over an empty storage. *)
Lemma save_then_loadAll_witness :
  savedArticles (screen (loadAll (save art1 fresh))) = JsArray ([] ++ [art1]) ∧
  last ([] ++ [art1]) = Some art1 ∧
  savedArticles (screen (loadAll (save art1 (save art1 fresh)))) = JsArray ([] ++ [art1; art1]).
Proof.
  apply (@save_then_loadAll _ sample_lawful fresh art1 []). reflexivity.
Defined.

(** C10 over a storage whose text is not JSON. *)
Lemma save_confirms_after_write_witness :
  let w1 := run (saveArticle art1) (mkWorld initial garbage [] []) in
  let w2 := settle_last Resolve w1 in
  storage w2 = garbage ∧ pending w2 = [] ∧
  log w2 = log w1 ++ [ConsoleError "Error saving article"].
Proof.
  destruct (save_confirms_after_write (mkWorld initial garbage [] []) art1 Resolve Resolve)
    as (_ & _ & Hbad & _).
  apply Hbad. right. left. reflexivity.
Defined.

(** C8 after the first page has arrived, with nothing stored. *)
Lemma toggle_keeps_feed_witness :
  let w := session (mount ∅) [Settle 0 (Respond (page_of [art1; art2])); Settle 0 Resolve] in
  let w1 := step w PressToggle in
  let w1' := settle_last Resolve w1 in
  viewingSaved (screen w) = false ∧
  feed (screen (step w1' PressToggle)) = feed (screen w) ∧
  rendered (screen (step w1' PressToggle)) = Some [art1; art2] ∧
  rendered (screen w1') = Some [].
Proof.
  split; [reflexivity|].
  destruct (toggle_keeps_feed ∅ [Settle 0 (Respond (page_of [art1; art2])); Settle 0 Resolve]
              Resolve) as (_ & _ & Hback & Hempty); [reflexivity|].
  destruct (Hback _ (or_intror eq_refl)) as (Hfeed & _ & _ & Hshown & _).
  destruct Hempty as [_ Hsaved]; [reflexivity|].
  exact (conj Hfeed (conj Hshown Hsaved)).
Defined.

(** X4: the first response has no article list. *)
Lemma only_an_empty_page_ends_pagination_witness :
  let w := session (mount ∅) [Settle 0 (Respond empty_page)] in
  hasMore (screen w) = true ∧ hasMore (screen (step w (Settle 0 Resolve))) = false ∧
  ∃ i r, Settle 0 Resolve = Settle i Resolve ∧ body_awaited w i = Some r ∧
    (body r = Some (JObject None) ∨ body r = Some (JObject (Some []))).
Proof.
  split; [reflexivity|]. split; [reflexivity|].
  apply (only_an_empty_page_ends_pagination ∅ [Settle 0 (Respond empty_page)]
           (Settle 0 Resolve)); reflexivity.
Defined.

(** X6: after an empty first page, scrolling does not move the page. *)
Lemma page_is_frozen_at_the_end_witness :
  let w := session (mount ∅) [Settle 0 (Respond empty_page); Settle 0 Resolve] in
  hasMore (screen w) = false ∧
  page (screen (session w [Scroll at_bottom; Scroll at_bottom])) = page (screen w).
Proof.
  split; [reflexivity|].
  apply (page_is_frozen_at_the_end ∅ [Settle 0 (Respond empty_page); Settle 0 Resolve]).
  reflexivity.
Defined.

(** X8: a save leaves the other key alone. *)
Lemma other_keys_are_untouched_witness :
  let acts := [Settle 0 (Respond (page_of [art1])); Settle 0 Resolve;
               PressSave 0; Settle 0 Resolve; Settle 0 Resolve] in
  storage (session (mount other_key) acts) !! "theme" = Some "dark".
Proof.
  exact (other_keys_are_untouched other_key _ "theme" ltac:(discriminate)).
Defined.

(** X9 over an empty storage. *)
Lemma bookmarks_stay_readable_witness :
  let w := session (mount ∅)
             [Settle 0 (Respond (page_of [art1])); Settle 0 Resolve;
              PressSave 0; Settle 0 Resolve; Settle 0 Resolve; PressToggle] in
  readable ∅ ∧ readable (storage w) ∧ is_Some (rendered (screen w)).
Proof.
  assert (Hr : readable ∅) by (by exists []).
  split; [exact Hr|].
  destruct (@bookmarks_stay_readable _ sample_lawful ∅
              [Settle 0 (Respond (page_of [art1])); Settle 0 Resolve;
               PressSave 0; Settle 0 Resolve; Settle 0 Resolve; PressToggle] Hr)
    as (Hst & _ & Hview).
  exact (conj Hst Hview).
Defined.

(** X10: three saves, one article twice. *)
Lemma saves_add_up_witness :
  savedArticles (screen (loadAll (save_all [art1; art2; art1] fresh)))
  = JsArray ([] ++ [art1; art2; art1]).
Proof.
  apply (@saves_add_up _ sample_lawful fresh [art1; art2; art1] []). reflexivity.
Defined.

(** X11: of two overlapping saves the first is lost. *)
Lemma overlapping_saves_lose_one_witness :
  let w' := overlapping_saves art1 art2 fresh in
  savedArticles (screen (loadAll w')) = JsArray ([] ++ [art2]) ∧
  log w' = log fresh ++ [StorageGet KEY; StorageGet KEY;
                         StorageSet KEY (JSON_stringify ([] ++ [art1]));
                         StorageSet KEY (JSON_stringify ([] ++ [art2]));
                         Alert "Saved!"; Alert "Saved!"].
Proof.
  destruct (@overlapping_saves_lose_one _ sample_lawful fresh art1 art2 [])
    as (_ & Hlog & _ & Hread); [reflexivity|].
  exact (conj Hread Hlog).
Defined.

(** X12: the stored text is not JSON. *)
Lemma failed_read_keeps_the_list_witness :
  let w' := settle_last Resolve (run getSavedArticles garbage_stored) in
  screen w' = screen garbage_stored ∧
  log w' = [StorageGet KEY; ConsoleError "Error fetching saved articles"].
Proof.
  destruct (failed_read_keeps_the_list garbage_stored Resolve) as (Hs & _ & _ & Hlog);
    [right; reflexivity|].
  exact (conj Hs Hlog).
Defined.

(** X13: the stored text is [null]. *)
Lemma stored_non_array_breaks_the_saved_list_witness :
  let w' := @settle_last null_platform Resolve (@step null_platform null_stored PressToggle) in
  savedArticles (screen w') = JsOther ∧ @view null_platform (screen w') = None.
Proof.
  destruct (@stored_non_array_breaks_the_saved_list null_platform null_stored)
    as (Hs & _ & Hv); [reflexivity..|].
  exact (conj Hs Hv).
Defined.

(** X14: a feed of two articles, and an empty feed. *)
Lemma entries_and_their_links_witness :
  (∃ v, view two_articles = Some v ∧ rendered two_articles = Some [art1; art2] ∧
     key_of <$> entries v = [Some 0; Some 1] ∧
     links <$> entries v = [[("Read", openLink art1); ("Save", saveArticle art1)];
                            [("Read", openLink art2); ("Save", saveArticle art2)]] ∧
     images v = ["https://example.com/header-image.png"; "https://example.com/sun.png"]) ∧
  (∃ v, view initial = Some v ∧ rendered initial = Some [] ∧
     entries v = [] ∧ links v = [("View Saved Articles", toggleView initial)]).
Proof.
  split.
  - destruct (entries_and_their_links two_articles _ [art1; art2] eq_refl eq_refl)
      as (_ & Hk & Hl & _ & _ & Hi & _).
    eexists. split; [reflexivity|]. split; [reflexivity|].
    exact (conj Hk (conj Hl Hi)).
  - destruct (entries_and_their_links initial _ [] eq_refl eq_refl)
      as (Hn & _ & _ & _ & Hl & _).
    eexists. split; [reflexivity|]. split; [reflexivity|].
    exact (conj (nil_length_inv _ Hn) Hl).
Defined.

(** X17 over a storage whose text is not JSON. *)
Lemma a_mounted_screen_reads_no_stale_list_witness :
  let w := session (mount garbage) [PressToggle; Settle 1 Resolve] in
  storage w !! KEY = Some "garbage" ∧
  savedArticles (screen (loadAll w)) = JsArray [] ∧
  log (loadAll w) = log w ++ [StorageGet KEY; ConsoleError "Error fetching saved articles"].
Proof.
  split; [reflexivity|].
  destruct (@a_mounted_screen_reads_no_stale_list _ sample_lawful garbage
              [PressToggle; Settle 1 Resolve]) as [_ Hbad].
  apply (Hbad "garbage"); [reflexivity | discriminate | reflexivity].
Defined.

(** X18: the offset is NaN. *)
Lemma near_bottom_on_doubles_witness :
  isCloseToBottom (mkScroll 800 nan 1000) = false ∧
  run (handleScroll (screen fresh) (mkScroll 800 nan 1000)) fresh = fresh.
Proof.
  destruct (near_bottom_on_doubles fresh (mkScroll 800 nan 1000)) as [Hnan _].
  apply Hnan. right. left. reflexivity.
Defined.

(** C7 over integer measurements: a viewport of 800, a content of 1000. *)
Lemma near_bottom_threshold_witness :
  (isCloseToBottom (mkScroll (double 800) (double 180) (double 1000)) = true
   ↔ (180 + 800 >= 1000 - 20)%Z) ∧
  (isCloseToBottom (mkScroll (double 800) (double 179) (double 1000)) = true
   ↔ (179 + 800 >= 1000 - 20)%Z).
Proof.
  split.
  - destruct (near_bottom_threshold fresh at_bottom) as (_ & _ & Hint & _).
    apply (Hint 800 180 1000)%Z; reflexivity.
  - destruct (near_bottom_threshold fresh at_bottom) as (_ & _ & Hint & _).
    apply (Hint 800 179 1000)%Z; reflexivity.
Defined.
